(** * AWSRAG: a shallow embedding of the ingestion and query Lambda handlers

    The two programs of the repository are
    - [processor/processor.py]: the S3-triggered ingestion handler
      (hash check, text extraction, chunking, embedding, replace-on-reupload);
    - [query/query.py]: the query handler (question embedding, nearest
      neighbour search in Postgres/pgvector, answer generation).

    Both are straight-line effectful Python.  They are embedded here in a
    state-and-exception monad over an explicit store: the Postgres database
    with its committed contents and the contents seen by the open
    transaction, plus the trace of collaborator calls made so far.  The
    collaborators (S3, Bedrock, the PDF/DOCX readers, the database's failure
    behaviour) are fields of a [world] record; every call receives the number
    of calls made before it, so two calls with equal arguments may answer
    differently. *)

From Stdlib Require Import ZArith QArith Qabs String Ascii DecimalString List Lia Bool.
From Stdlib Require Import Sorting.Sorted Sorting.Permutation.
From stdpp Require Import base option gmap strings list.

#[local] Set Warnings "-register-all".
#[local] Open Scope Z_scope.

(** ** Python values *)

(** The values [json.loads] builds, which are also the values the Lambda
    runtime hands to a handler as [event].  A [JFloat] is a finite binary64
    number, written as the rational it denotes. *)
Inductive json : Type :=
| JNull
| JBool (b : bool)
| JInt (z : Z)
| JFloat (q : Q)
| JStr (s : string)
| JArr (l : list json)
| JObj (m : gmap string json).

(** Python truthiness, as used by [if not question]. *)
Definition truthy (v : json) : bool :=
  match v with
  | JNull => false
  | JBool b => b
  | JInt z => negb (z =? 0)
  | JFloat q => negb (Qnum q =? 0)
  | JStr s => negb (String.eqb s "")
  | JArr l => match l with [] => false | _ :: _ => true end
  | JObj m => negb (bool_decide (dom m = ∅))
  end.

(** Exceptions: the class that matters for dispatch and the text that
    [str(e)] yields. *)
Inductive exn_class : Type :=
| KeyError | IndexError | TypeError | AttributeError | ValueError
| ParamValidationError | CollaboratorError.

Record exn : Type := Exn { exn_kind : exn_class; exn_msg : string }.

Inductive result (A : Type) : Type :=
| Ok (a : A)
| Raise (e : exn).
Arguments Ok {A} a.
Arguments Raise {A} e.

(** [v[k]] for a string key. *)
Definition subscript_key (v : json) (k : string) : result json :=
  match v with
  | JObj m =>
      match m !! k with
      | Some x => Ok x
      | None => Raise (Exn KeyError k)
      end
  | JStr _ => Raise (Exn TypeError "string indices must be integers")
  | JArr _ => Raise (Exn TypeError "list indices must be integers or slices, not str")
  | _ => Raise (Exn TypeError "object is not subscriptable")
  end.

(** [v[0]]. *)
Definition subscript_zero (v : json) : result json :=
  match v with
  | JArr (x :: _) => Ok x
  | JArr [] => Raise (Exn IndexError "list index out of range")
  | JStr (String c _) => Ok (JStr (String c EmptyString))
  | JStr EmptyString => Raise (Exn IndexError "string index out of range")
  | JObj _ => Raise (Exn KeyError "0")
  | _ => Raise (Exn TypeError "object is not subscriptable")
  end.

(** ** The database *)

(** An embedding vector; the components are binary64 numbers, written as
    rationals. *)
Definition vec : Type := list Q.

(** A row of table [embeddings]. *)
Record chunk_row : Type := ChunkRow {
  col_chunk_text : string;
  col_embedding : vec;
  col_filename : string;
  col_chunk_index : Z;
  col_file_hash : string
}.

(** A row of table [processed_files], keyed by its [filename] column (the
    conflict target of the upsert). *)
Record file_row : Type := FileRow {
  pf_file_hash : string;
  pf_chunk_count : Z;
  pf_processed_at : Z
}.

Record db : Type := Db {
  embeddings : list chunk_row;
  processed_files : gmap string file_row
}.

Definition empty_db : db := Db [] ∅.

(** ** Collaborator calls *)

Inductive call : Type :=
| S3GetObject (bucket key : string)
| DbConnect
| DbSelectHash (key : string)
| DbDelete (key : string)
| DbInsertPage (rows : list chunk_row)
| DbUpsert (key hash : string) (count : Z)
| DbCommit
| DbCursorClose
| DbClose
| DbNearest (q : vec) (top_k : json)
| ExtractText (filename : string)
| Embed (text : json)
| Generate (prompt : string).

(** The calls that write to the store. *)
Definition is_write (c : call) : bool :=
  match c with
  | DbDelete _ | DbInsertPage _ | DbUpsert _ _ _ | DbCommit => true
  | _ => false
  end.

(** The calls that reach the relational store at all. *)
Definition is_storage (c : call) : bool :=
  match c with
  | DbConnect | DbSelectHash _ | DbDelete _ | DbInsertPage _
  | DbUpsert _ _ _ | DbCommit | DbCursorClose | DbClose | DbNearest _ _ => true
  | _ => false
  end.

Definition is_embed (c : call) : bool :=
  match c with Embed _ => true | _ => false end.

Definition is_generate (c : call) : bool :=
  match c with Generate _ => true | _ => false end.

Definition is_extract (c : call) : bool :=
  match c with ExtractText _ => true | _ => false end.

(** What the handlers cannot decide themselves.  The [nat] argument is the
    number of collaborator calls made before this one. *)
Record world : Type := World {
  s3_body : nat -> string -> string -> result (list Byte.byte);
  md5_hexdigest : list Byte.byte -> string;
  pdf_pages : list Byte.byte -> result (list (result string));
  docx_paragraphs : list Byte.byte -> result (list string);
  utf8_decode : list Byte.byte -> result string;
  titan_embedding : nat -> json -> result vec;
  claude_text : nat -> string -> result string;
  pg_fault : nat -> option exn;
  pg_now : nat -> Z;
  cosine_distance : vec -> vec -> Q;
  pg_limit : json -> result (option nat);
  json_loads : string -> result json;
  py_str : json -> string
}.

(** ** The state and the monad *)

(** [committed] is what any other reader of the database sees.  [session]
    is what the handler's own connection sees inside its transaction:
    psycopg2 connections are not in autocommit mode, so the first statement
    opens a transaction that lasts until [conn.commit()].  Every entry of
    [trace] pairs a call with the committed contents right after it. *)
Record state : Type := State {
  committed : db;
  session : option db;
  trace : list (call * db)
}.

Definition init_state (d : db) : state := State d None [].

Definition calls (s : state) : list call := map fst (trace s).
Definition snapshots (s : state) : list db := map snd (trace s).

Definition M (A : Type) : Type := state -> result A * state.

Definition ret {A} (a : A) : M A := fun s => (Ok a, s).
Definition raise {A} (e : exn) : M A := fun s => (Raise e, s).
Definition bind {A B} (m : M A) (k : A -> M B) : M B :=
  fun s =>
    match m s with
    | (Ok a, s') => k a s'
    | (Raise e, s') => (Raise e, s')
    end.
Definition lift {A} (r : result A) : M A := fun s => (r, s).

(** [try: ... except Exception as e: ...]. *)
Definition try_except {A} (m : M A) (h : exn -> M A) : M A :=
  fun s =>
    match m s with
    | (Ok a, s') => (Ok a, s')
    | (Raise e, s') => h e s'
    end.

Declare Scope py_scope.
Delimit Scope py_scope with py.
Notation "x <- m ;; k" := (bind m (fun x => k))
  (at level 100, m at next level, right associativity) : py_scope.
Notation "m ;;; k" := (bind m (fun _ => k))
  (at level 100, right associativity) : py_scope.
#[local] Open Scope py_scope.

(** The number of calls made so far. *)
Definition tick (s : state) : nat := length (trace s).

(** Record a call; the snapshot is taken after the call's effect. *)
Definition record_call (c : call) (s : state) : state :=
  State (committed s) (session s) (trace s ++ [(c, committed s)]).

(** ** Strings

    A Python [str] is embedded as a [string] whose characters are the code
    points below 256. *)

Definition len (s : string) : Z := Z.of_nat (String.length s).

(** [c.lower()] on one character: only [A]..[Z] change. *)
Definition lower_char (c : ascii) : ascii :=
  let n := nat_of_ascii c in
  if ((65 <=? n) && (n <=? 90))%nat then ascii_of_nat (n + 32) else c.

(** [s.lower()]. *)
Fixpoint lower (s : string) : string :=
  match s with
  | EmptyString => EmptyString
  | String c t => String (lower_char c) (lower t)
  end.

(** [s.endswith(suffix)]. *)
Definition endswith (s suffix : string) : bool :=
  let n := String.length s in
  let m := String.length suffix in
  ((m <=? n)%nat && String.eqb (substring (n - m) m s) suffix).

(** [c.isspace()] for a code point below 256. *)
Definition isspace (c : ascii) : bool :=
  let n := nat_of_ascii c in
  (((9 <=? n) && (n <=? 13)) || ((28 <=? n) && (n <=? 32))
   || (n =? 133) || (n =? 160))%nat.

Fixpoint lstrip (s : string) : string :=
  match s with
  | EmptyString => EmptyString
  | String c t => if isspace c then lstrip t else s
  end.

Fixpoint rstrip (s : string) : string :=
  match s with
  | EmptyString => EmptyString
  | String c t =>
      match rstrip t with
      | EmptyString => if isspace c then EmptyString else String c EmptyString
      | t' => String c t'
      end
  end.

(** [s.strip()]. *)
Definition strip (s : string) : string := rstrip (lstrip s).

(** [separator.join(l)]. *)
Definition join (separator : string) (l : list string) : string :=
  String.concat separator l.

(** [sub in text], for a literal [sub]. *)
Fixpoint contains (sub text : string) : bool :=
  if String.prefix sub text then true
  else match text with
       | EmptyString => false
       | String _ t => contains sub t
       end.

(** [list(text)]: the characters, each as a string. *)
Fixpoint chars (text : string) : list string :=
  match text with
  | EmptyString => []
  | String c t => String c EmptyString :: chars t
  end.

(** [text.split(sep)] for a non-empty literal [sep]: the pieces between the
    leftmost non-overlapping occurrences.  [skip] counts the characters of a
    matched separator still to be passed over; [cur] is the piece being
    read. *)
Fixpoint split_go (sep : string) (skip : nat) (cur text : string) : list string :=
  match text with
  | EmptyString => [cur]
  | String c t =>
      match skip with
      | S k => split_go sep k cur t
      | O =>
          if String.prefix sep text
          then cur :: split_go sep (String.length sep - 1) EmptyString t
          else split_go sep 0 (cur +:+ String c EmptyString) t
      end
  end.

Definition split_on (sep text : string) : list string :=
  split_go sep 0 EmptyString text.

(** ** The Chunker

    [chunk_text] builds a [RecursiveCharacterTextSplitter] and calls its
    [split_text].  The splitter is the text-splitter package's; what follows
    transcribes the methods that call goes through, with the constructor
    defaults the source leaves in place: [keep_separator=True],
    [is_separator_regex=False], [strip_whitespace=True],
    [length_function=len]. *)
Module Splitter.

Section WithParameters.
Context (chunk_size chunk_overlap : Z).

(** [_split_text_with_regex(text, re.escape(separator), True)]: each
    separator stays in front of the piece that follows it and empty
    pieces are dropped. *)
Definition _split_text_with_regex (text separator : string) : list string :=
  let splits :=
    if String.eqb separator "" then chars text
    else match split_on separator text with
         | [] => []
         | first :: rest => first :: map (String.append separator) rest
         end in
  filter (fun s => s ≠ "") splits.

(** [_join_docs]. *)
Definition _join_docs (docs : list string) (separator : string) : option string :=
  let text := strip (join separator docs) in
  if String.eqb text "" then None else Some text.

Definition docs_append (docs : list string) (doc : option string) : list string :=
  match doc with
  | Some d => docs ++ [d]
  | None => docs
  end.

(** The condition of the [while] loop of [_merge_splits]. *)
Definition keep_popping (separator_len _len total : Z) (nonempty : bool) : bool :=
  (total >? chunk_overlap)
  || ((total + _len + (if nonempty then separator_len else 0) >? chunk_size)
      && (total >? 0)).

(** The [while] loop of [_merge_splits]: drop documents from the front
    of [current_doc]. *)
Fixpoint pop_front (separator_len _len : Z) (current_doc : list string)
    (total : Z) : result (list string * Z) :=
  match current_doc with
  | [] =>
      if keep_popping separator_len _len total false
      then Raise (Exn IndexError "list index out of range")
      else Ok ([], total)
  | d0 :: rest =>
      if keep_popping separator_len _len total true
      then pop_front separator_len _len rest
             (total - (len d0 + (match rest with [] => 0 | _ => separator_len end)))
      else Ok (current_doc, total)
  end.

(** One iteration of the [for d in splits] loop of [_merge_splits], on
    the loop variables [(docs, current_doc, total)]. *)
Definition merge_step (separator : string)
    (st : list string * list string * Z) (d : string)
    : result (list string * list string * Z) :=
  let '(docs, current_doc, total) := st in
  let separator_len := len separator in
  let _len := len d in
  let after_flush :=
    if total + _len + (match current_doc with [] => 0 | _ => separator_len end)
       >? chunk_size
    then match current_doc with
         | [] => Ok st
         | _ :: _ =>
             let docs' := docs_append docs (_join_docs current_doc separator) in
             match pop_front separator_len _len current_doc total with
             | Ok (cd, t) => Ok (docs', cd, t)
             | Raise e => Raise e
             end
         end
    else Ok st in
  match after_flush with
  | Raise e => Raise e
  | Ok (docs1, cd1, total1) =>
      let cd2 := cd1 ++ [d] in
      Ok (docs1, cd2,
          total1 + _len + (match cd1 with [] => 0 | _ => separator_len end))
  end.

Fixpoint merge_loop (separator : string) (splits : list string)
    (st : list string * list string * Z)
    : result (list string * list string * Z) :=
  match splits with
  | [] => Ok st
  | d :: rest =>
      match merge_step separator st d with
      | Ok st' => merge_loop separator rest st'
      | Raise e => Raise e
      end
  end.

(** [_merge_splits]. *)
Definition _merge_splits (splits : list string) (separator : string)
    : result (list string) :=
  match merge_loop separator splits ([], [], 0) with
  | Ok (docs, current_doc, _) =>
      Ok (docs_append docs (_join_docs current_doc separator))
  | Raise e => Raise e
  end.

(** [if _good_splits: final_chunks.extend(_merge_splits(...))]. *)
Definition flush_good (final_chunks _good_splits : list string)
    : result (list string) :=
  match _good_splits with
  | [] => Ok final_chunks
  | _ :: _ =>
      match _merge_splits _good_splits "" with
      | Ok merged => Ok (final_chunks ++ merged)
      | Raise e => Raise e
      end
  end.

(** The [for s in splits] loop of [_split_text] and the flush after it,
    on the loop variables [(final_chunks, _good_splits)].  [deeper] is
    [None] when [new_separators] is empty, and otherwise the recursive
    call [_split_text(s, new_separators)]. *)
Fixpoint split_loop (deeper : option (string -> result (list string)))
    (splits : list string) (final_chunks _good_splits : list string)
    : result (list string) :=
  match splits with
  | [] => flush_good final_chunks _good_splits
  | s :: rest =>
      if len s <? chunk_size
      then split_loop deeper rest final_chunks (_good_splits ++ [s])
      else
        match flush_good final_chunks _good_splits with
        | Raise e => Raise e
        | Ok final1 =>
            match deeper with
            | None => split_loop deeper rest (final1 ++ [s]) []
            | Some rec =>
                match rec s with
                | Ok other_info => split_loop deeper rest (final1 ++ other_info) []
                | Raise e => Raise e
                end
            end
        end
  end.

(** [_split_text(text, separators)].  The first loop of the method looks
    for the first separator that is empty or occurs in [text]; the
    recursion here walks the list the same way.  [last] is
    [separators[-1]], the separator used when none is found; it is the
    same for every suffix of the list. *)
Fixpoint _split_text (last : string) (separators : list string) (text : string)
    : result (list string) :=
  match separators with
  | [] => split_loop None (_split_text_with_regex text last) [] []
  | _s :: new_separators =>
      if String.eqb _s ""
      then split_loop None (_split_text_with_regex text "") [] []
      else if contains _s text
      then split_loop
             (match new_separators with
              | [] => None
              | _ :: _ => Some (_split_text last new_separators)
              end)
             (_split_text_with_regex text _s) [] []
      else _split_text last new_separators text
  end.

(** [split_text]. *)
Definition split_text (separators : list string) (text : string)
    : result (list string) :=
  _split_text (List.last separators "") separators text.

End WithParameters.

End Splitter.

(** The separators of [chunk_text]: paragraph break, line break, period and
    space, space, and the empty string. *)
Definition nl : string := String (ascii_of_nat 10) EmptyString.
Definition separators : list string := [nl +:+ nl; nl; ". "; " "; ""].

(** [chunk_text(text, chunk_size, chunk_overlap)].  The splitter's
    constructor refuses an overlap larger than the size. *)
Definition chunk_text_with (chunk_size chunk_overlap : Z) (text : string)
    : result (list string) :=
  if chunk_overlap >? chunk_size
  then Raise (Exn ValueError "Got a larger chunk overlap than chunk size")
  else Splitter.split_text chunk_size chunk_overlap separators text.

(** [chunk_text(text)] with the defaults [chunk_size=1000],
    [chunk_overlap=200]. *)
Definition chunk_text (text : string) : result (list string) :=
  chunk_text_with 1000 200 text.

(** ** Requests and responses *)

(** The S3 notification that triggers the processor:
    [event['Records'][i]['s3']['bucket']['name']] and
    [event['Records'][i]['s3']['object']['key']]. *)
Record s3_record : Type := S3Record {
  bucket_name : string;
  object_key : string
}.

Record s3_event : Type := S3Event { Records : list s3_record }.

(** A handler's return value.  [body] is the value handed to
    [json.dumps]. *)
Record response : Type := Response {
  statusCode : Z;
  headers : list (string * string);
  body : json
}.

(** [_paginate(seq, page_size)] of [psycopg2.extras]: [execute_values] sends
    one statement per page.  [room] is what is left of the page being
    filled. *)
Fixpoint paginate {A} (page_size room : nat) (page seq : list A) : list (list A) :=
  match seq with
  | [] => match page with [] => [] | _ :: _ => [page] end
  | x :: rest =>
      match room with
      | O => page :: paginate page_size (page_size - 1) [x] rest
      | S r => paginate page_size r (page ++ [x]) rest
      end
  end.

(** ** Collaborators

    [get_db_connection] and [get_embedding] are the same in both files. *)
Section Collaborators.
Context (w : world).

(** [s3.get_object(Bucket=bucket, Key=key)] and the read of its body. *)
Definition s3_get_object (bucket key : string) : M (list Byte.byte) :=
  fun s => (s3_body w (tick s) bucket key, record_call (S3GetObject bucket key) s).

(** [get_embedding(text)]. *)
Definition get_embedding (text : json) : M vec :=
  fun s => (titan_embedding w (tick s) text, record_call (Embed text) s).

(** [get_db_connection()]: the new connection sees the committed
    contents. *)
Definition get_db_connection : M unit :=
  fun s =>
    match pg_fault w (tick s) with
    | Some e => (Raise e, record_call DbConnect s)
    | None =>
        (Ok tt, record_call DbConnect (State (committed s) (Some (committed s)) (trace s)))
    end.

(** A statement on the open connection: it fails as a whole or runs on
    the transaction's view of the database. *)
Definition db_statement {A} (c : call) (run : db -> A * db) : M A :=
  fun s =>
    match session s with
    | None => (Raise (Exn CollaboratorError "connection already closed"), s)
    | Some d =>
        match pg_fault w (tick s) with
        | Some e => (Raise e, record_call c s)
        | None =>
            let '(a, d') := run d in
            (Ok a, record_call c (State (committed s) (Some d') (trace s)))
        end
    end.

(** [conn.commit()]: the transaction's view becomes the committed
    contents, or the commit fails and nothing changes. *)
Definition db_commit : M unit :=
  fun s =>
    match session s with
    | None => (Raise (Exn CollaboratorError "connection already closed"), s)
    | Some d =>
        match pg_fault w (tick s) with
        | Some e => (Raise e, record_call DbCommit s)
        | None => (Ok tt, record_call DbCommit (State d (Some d) (trace s)))
        end
    end.

(** [cursor.close()]. *)
Definition cursor_close : M unit :=
  fun s => (Ok tt, record_call DbCursorClose s).

(** [conn.close()]: what was not committed is dropped. *)
Definition conn_close : M unit :=
  fun s => (Ok tt, record_call DbClose (State (committed s) None (trace s))).

(** [SELECT file_hash FROM processed_files WHERE filename = %s] and
    [fetchone()]. *)
Definition select_file_hash (key : string) : M (option string) :=
  db_statement (DbSelectHash key)
    (fun d => (pf_file_hash <$> processed_files d !! key, d)).

(** [DELETE FROM embeddings WHERE filename = %s]. *)
Definition delete_embeddings (key : string) : M unit :=
  db_statement (DbDelete key)
    (fun d =>
       (tt, Db (filter (fun r => col_filename r ≠ key) (embeddings d))
               (processed_files d))).

(** One [INSERT INTO embeddings ... VALUES ...] statement. *)
Definition insert_page (rows : list chunk_row) : M unit :=
  db_statement (DbInsertPage rows)
    (fun d => (tt, Db (embeddings d ++ rows) (processed_files d))).

Fixpoint insert_pages (pages : list (list chunk_row)) : M unit :=
  match pages with
  | [] => ret tt
  | page :: rest => insert_page page ;;; insert_pages rest
  end.

(** [execute_values(cursor, "INSERT INTO embeddings ...", argslist)] with
    the default [page_size=100]. *)
Definition execute_values (argslist : list chunk_row) : M unit :=
  insert_pages (paginate 100 100 [] argslist).

(** [INSERT INTO processed_files ... ON CONFLICT (filename) DO UPDATE].  The
    update sets [processed_at] to [NOW()]; the insert leaves it to the
    column default, taken to be the current time as well. *)
Definition upsert_processed_file (key file_hash : string) (chunk_count : Z) : M unit :=
  fun s =>
    db_statement (DbUpsert key file_hash chunk_count)
      (fun d =>
         (tt, Db (embeddings d)
                 (<[key := FileRow file_hash chunk_count (pg_now w (tick s))]>
                    (processed_files d)))) s.

End Collaborators.

(** ** processor.py *)
Module Processor.
Section WithWorld.
Context (w : world).

(** [extract_pdf]: the text of every page, each followed by a newline. *)
Fixpoint concat_pages (pages : list (result string)) (text : string) : result string :=
  match pages with
  | [] => Ok text
  | Ok page_text :: rest => concat_pages rest (text +:+ page_text +:+ nl)
  | Raise e :: _ => Raise e
  end.

Definition extract_pdf (file_obj : list Byte.byte) : result string :=
  match pdf_pages w file_obj with
  | Ok pages => concat_pages pages ""
  | Raise e => Raise e
  end.

(** [extract_docx]: the text of every paragraph, each followed by a
    newline. *)
Definition extract_docx (file_obj : list Byte.byte) : result string :=
  match docx_paragraphs w file_obj with
  | Ok paragraphs =>
      Ok (fold_left (fun text paragraph => text +:+ paragraph +:+ nl) paragraphs "")
  | Raise e => Raise e
  end.

(** [extract_text(file_obj, filename)]. *)
Definition extract_text (file_obj : list Byte.byte) (filename : string) : result string :=
  let file_lower := lower filename in
  if endswith file_lower ".pdf" then extract_pdf file_obj
  else if endswith file_lower ".docx" then extract_docx file_obj
  else if endswith file_lower ".txt" then utf8_decode w file_obj
  else Raise (Exn ValueError ("Unsupported file type: " +:+ filename)).

(** The call of [extract_text] inside the handler, marked in the trace. *)
Definition extract_text_call (file_obj : list Byte.byte) (filename : string) : M string :=
  fun s => (extract_text file_obj filename, record_call (ExtractText filename) s).

(** The loop [for i, chunk in enumerate(chunks)]: [i] is the index of the
    next chunk and [embeddings_data] the rows prepared so far. *)
Fixpoint embed_chunks (key file_hash : string) (i : Z) (chunks : list string)
    (embeddings_data : list chunk_row) : M (list chunk_row) :=
  match chunks with
  | [] => ret embeddings_data
  | chunk :: rest =>
      embedding <- get_embedding w (JStr chunk) ;;
      embed_chunks key file_hash (i + 1) rest
        (embeddings_data ++ [ChunkRow chunk embedding key i file_hash])
  end.

Definition already_processed : response :=
  Response 200 [] (JStr "File already processed").

Definition processed (key : string) (chunks : list string) : response :=
  Response 200 []
    (JObj (list_to_map
             [("message", JStr "File processed successfully");
              ("filename", JStr key);
              ("chunks", JInt (Z.of_nat (length chunks)))])).

(** [lambda_handler] of processor.py.  Its [except] clause prints and
    re-raises, so an exception leaves the handler unchanged. *)
Definition lambda_handler (event : s3_event) : M response :=
  record <- lift (match Records event with
                  | r :: _ => Ok r
                  | [] => Raise (Exn IndexError "list index out of range")
                  end) ;;
  let bucket := bucket_name record in
  let key := object_key record in
  _ <- s3_get_object w bucket key ;;
  file_bytes <- s3_get_object w bucket key ;;
  let file_hash := md5_hexdigest w file_bytes in
  get_db_connection w ;;;
  result <- select_file_hash w key ;;
  if match result with
     | Some stored => String.eqb stored file_hash
     | None => false
     end
  then
    cursor_close ;;;
    conn_close ;;;
    ret already_processed
  else
    file_obj <- s3_get_object w bucket key ;;
    text <- extract_text_call file_obj key ;;
    chunks <- lift (chunk_text text) ;;
    embeddings_data <- embed_chunks key file_hash 0 chunks [] ;;
    delete_embeddings w key ;;;
    execute_values w embeddings_data ;;;
    upsert_processed_file w key file_hash (Z.of_nat (length chunks)) ;;;
    db_commit w ;;;
    cursor_close ;;;
    conn_close ;;;
    ret (processed key chunks).

(** One invocation of the processor on a database.  The connection is a
    local of the handler: the next invocation opens its own, on the
    committed contents. *)
Definition ingest (event : s3_event) (d : db) : result response * state :=
  lambda_handler event (init_state d).

End WithWorld.
End Processor.

(** ** query.py *)
Module Query.

(** A row of the result of the search: the [RealDictCursor] dictionary
    with keys [chunk_text], [filename], [chunk_index], [similarity]. *)
Record hit : Type := Hit {
  hit_chunk_text : string;
  hit_filename : string;
  hit_chunk_index : Z;
  similarity : Q
}.

Definition chr (n : nat) : string := String (ascii_of_nat n) EmptyString.
Definition quote : string := chr 34.

(** Decimal text of an integer, as [str(i)] gives it. *)
Definition str_of_Z (z : Z) : string :=
  NilZero.string_of_int (Z.to_int z).

Section WithWorld.
Context (w : world).

(** The distance [embedding <=> q] of a row. *)
Definition distance (q : vec) (r : chunk_row) : Q :=
  cosine_distance w (col_embedding r) q.

(** [ORDER BY embedding <=> q]: rows by ascending distance.  Rows at equal
    distance keep the order of the table; SQL leaves that order open. *)
Fixpoint insert_by_distance (q : vec) (r : chunk_row) (sorted : list chunk_row)
    : list chunk_row :=
  match sorted with
  | [] => [r]
  | r' :: rest =>
      if Qle_bool (distance q r) (distance q r')
      then r :: sorted
      else r' :: insert_by_distance q r rest
  end.

Definition order_by_distance (q : vec) (rows : list chunk_row) : list chunk_row :=
  fold_right (insert_by_distance q) [] rows.

(** [LIMIT %s] with the Python value bound to it: an integer limits the
    rows and must not be negative, [None] is [LIMIT NULL], no limit.  What
    Postgres makes of any other value is the world's. *)
Definition limit_of (top_k : json) : result (option nat) :=
  match top_k with
  | JInt k =>
      if k <? 0 then Raise (Exn CollaboratorError "LIMIT must not be negative")
      else Ok (Some (Z.to_nat k))
  | JNull => Ok None
  | v => pg_limit w v
  end.

(** The selected columns of one row. *)
Definition select_hit (q : vec) (r : chunk_row) : hit :=
  Hit (col_chunk_text r) (col_filename r) (col_chunk_index r) (1 - distance q r).

(** The [SELECT ... ORDER BY ... LIMIT] of [similarity_search], on the
    contents of the table. *)
Definition nearest (q : vec) (top_k : json) (rows : list chunk_row)
    : result (list hit) :=
  match limit_of top_k with
  | Raise e => Raise e
  | Ok limit =>
      let ordered := order_by_distance q rows in
      Ok (map (select_hit q)
            (match limit with
             | Some n => firstn n ordered
             | None => ordered
             end))
  end.

(** [cursor.execute(...)] and [cursor.fetchall()]. *)
Definition select_nearest (q : vec) (top_k : json) : M (list hit) :=
  fun s =>
    match session s with
    | None => (Raise (Exn CollaboratorError "connection already closed"), s)
    | Some d =>
        match pg_fault w (tick s) with
        | Some e => (Raise e, record_call (DbNearest q top_k) s)
        | None => (nearest q top_k (embeddings d), record_call (DbNearest q top_k) s)
        end
    end.

(** [similarity_search(query_embedding, top_k)]. *)
Definition similarity_search (query_embedding : vec) (top_k : json) : M (list hit) :=
  get_db_connection w ;;;
  results <- select_nearest query_embedding top_k ;;
  cursor_close ;;;
  conn_close ;;;
  ret results.

(** [str(v)] inside an f-string. *)
Definition format_value (v : json) : string :=
  match v with
  | JStr s => s
  | _ => py_str w v
  end.

(** The label and text of one context chunk. *)
Definition context_entry (chunk : hit) : string :=
  "[Documento: " +:+ hit_filename chunk +:+ ", Fragmento "
    +:+ str_of_Z (hit_chunk_index chunk) +:+ "]" +:+ nl +:+ hit_chunk_text chunk.

Definition build_prompt (question : json) (context_chunks : list hit) : string :=
  let context := join (nl +:+ nl) (map context_entry context_chunks) in
  "Eres un asistente que responde preguntas bas" +:+ chr 225
    +:+ "ndose " +:+ chr 250 +:+ "nicamente en el contexto proporcionado." +:+ nl
    +:+ nl
    +:+ "Contexto:" +:+ nl
    +:+ context +:+ nl
    +:+ nl
    +:+ "Pregunta: " +:+ format_value question +:+ nl
    +:+ nl
    +:+ "Instrucciones:" +:+ nl
    +:+ "- Responde SOLO bas" +:+ chr 225 +:+ "ndote en la informaci" +:+ chr 243
    +:+ "n del contexto" +:+ nl
    +:+ "- Si la respuesta no est" +:+ chr 225 +:+ " en el contexto, di " +:+ quote
    +:+ "No tengo informaci" +:+ chr 243
    +:+ "n suficiente para responder esa pregunta" +:+ quote +:+ nl
    +:+ "- Cita el documento fuente cuando sea relevante" +:+ nl
    +:+ "- S" +:+ chr 233 +:+ " conciso y preciso" +:+ nl
    +:+ nl
    +:+ "Respuesta:".

(** [query_claude(question, context_chunks)]. *)
Definition query_claude (question : json) (context_chunks : list hit) : M string :=
  let prompt := build_prompt question context_chunks in
  fun s => (claude_text w (tick s) prompt, record_call (Generate prompt) s).

(** [v in event] for the key ["body"]. *)
Definition is_body_key (v : json) : bool :=
  match v with
  | JStr s => String.eqb s "body"
  | _ => false
  end.

(** The request body: [event['body']], parsed when it is a string, or the
    event itself when it has no such key. *)
Definition request_body (event : json) : result json :=
  match event with
  | JObj m =>
      match m !! "body" with
      | Some (JStr s) => json_loads w s
      | Some v => Ok v
      | None => Ok event
      end
  | JArr l =>
      if existsb is_body_key l
      then Raise (Exn TypeError "list indices must be integers or slices, not str")
      else Ok event
  | JStr s =>
      if contains "body" s
      then Raise (Exn TypeError "string indices must be integers")
      else Ok event
  | _ => Raise (Exn TypeError "argument is not iterable")
  end.

(** [body.get(key, default)]. *)
Definition dict_get (v : json) (key : string) (default : json) : result json :=
  match v with
  | JObj m => Ok (match m !! key with Some x => x | None => default end)
  | _ => Raise (Exn AttributeError "object has no attribute 'get'")
  end.

Definition missing_question : response :=
  Response 400 []
    (JObj (list_to_map [("error", JStr "Missing required field: question")])).

Definition source_of (chunk : hit) : json :=
  JObj (list_to_map
          [("filename", JStr (hit_filename chunk));
           ("chunk_index", JInt (hit_chunk_index chunk));
           ("similarity", JFloat (similarity chunk))]).

Definition answered (question : json) (answer : string) (context_chunks : list hit)
    : response :=
  Response 200
    [("Content-Type", "application/json"); ("Access-Control-Allow-Origin", "*")]
    (JObj (list_to_map
             [("question", question);
              ("answer", JStr answer);
              ("sources", JArr (map source_of context_chunks))])).

Definition failed (e : exn) : response :=
  Response 500 [] (JObj (list_to_map [("error", JStr (exn_msg e))])).

(** The [try] block of [lambda_handler]. *)
Definition handle (event : json) : M response :=
  body <- lift (request_body event) ;;
  question <- lift (dict_get body "question" JNull) ;;
  top_k <- lift (dict_get body "top_k" (JInt 5)) ;;
  if negb (truthy question)
  then ret missing_question
  else
    query_embedding <- get_embedding w question ;;
    context_chunks <- similarity_search query_embedding top_k ;;
    answer <- query_claude question context_chunks ;;
    ret (answered question answer context_chunks).

(** [lambda_handler] of query.py. *)
Definition lambda_handler (event : json) : M response :=
  try_except (handle event) (fun e => ret (failed e)).

(** One invocation of the query handler on a database. *)
Definition query (event : json) (d : db) : result response * state :=
  lambda_handler event (init_state d).

End WithWorld.
End Query.

(** ** Notions used in the statements *)

(** The persisted version of a document: its chunk rows, in table order,
    and its metadata row. *)
Definition chunks_of (d : db) (key : string) : list chunk_row :=
  filter (fun r => col_filename r = key) (embeddings d).

Definition document (d : db) (key : string) : list chunk_row * option file_row :=
  (chunks_of d key, processed_files d !! key).

(** The chunk indices of a document are [0 .. chunk_count - 1], in order,
    and a key without metadata row has no chunk rows. *)
Definition contiguous (d : db) (key : string) : Prop :=
  match processed_files d !! key with
  | Some row => map col_chunk_index (chunks_of d key) = seqZ 0 (pf_chunk_count row)
  | None => chunks_of d key = []
  end.


(** The databases that invocations of the processor build from the empty
    one, whatever the events and the collaborators' answers. *)
Inductive reachable : db -> Prop :=
| reachable_empty : reachable empty_db
| reachable_ingest (w : world) (event : s3_event) (d : db) :
    reachable d -> reachable (committed (Processor.ingest w event d).2).

(** A computation that leaves the committed contents alone and makes only
    calls of class [Q]. *)
Definition quiet {A} (Q : call -> bool) (m : M A) : Prop :=
  forall s r s', m s = (r, s') ->
    committed s' = committed s /\
    exists t, trace s' = trace s ++ t /\
      Forall (fun cd : call * db => Q cd.1 = true /\ cd.2 = committed s) t.

(** A computation whose effect on the committed contents is at most one
    switch, and none when it raises: the trace splits into calls that left
    the old contents in place and calls that came after the new contents
    were in place. *)
Definition atomic {A} (m : M A) : Prop :=
  forall s r s', m s = (r, s') ->
    exists t1 t2, trace s' = trace s ++ t1 ++ t2 /\
      Forall (fun cd : call * db => cd.2 = committed s) t1 /\
      Forall (fun cd : call * db => cd.2 = committed s') t2 /\
      (forall e, r = Raise e -> t2 = [] /\ committed s' = committed s).

(** The suffixes [extract_text] knows. *)
Definition supported (filename : string) : bool :=
  endswith (lower filename) ".pdf" || endswith (lower filename) ".docx"
  || endswith (lower filename) ".txt".

Definition no_write_no_embed (c : call) : bool :=
  negb (is_write c) && negb (is_embed c).



(** ** A concrete world

    The object store serves the same five bytes for every key, the text
    decoder reads them as the text [hello], the database never fails, the
    distance of two vectors is the difference of their first components,
    and the JSON parser knows one request text. *)
Definition demo_request : gmap string json :=
  list_to_map [("question", JStr "what?"); ("top_k", JInt 1)].

Definition demo_request_text : string :=
  "{" +:+ Query.quote +:+ "question" +:+ Query.quote +:+ ": "
    +:+ Query.quote +:+ "what?" +:+ Query.quote +:+ ", "
    +:+ Query.quote +:+ "top_k" +:+ Query.quote +:+ ": 1}".

Definition first_component (v : vec) : Q :=
  match v with
  | [] => 0%Q
  | x :: _ => x
  end.

Definition demo_world : world :=
  {| s3_body := fun _ _ _ => Ok [Byte.x68; Byte.x65; Byte.x6c; Byte.x6c; Byte.x6f];
     md5_hexdigest := fun _ => "5d41402abc4b2a76b9719d911017c592";
     pdf_pages := fun _ => Raise (Exn CollaboratorError "not a PDF");
     docx_paragraphs := fun _ => Raise (Exn CollaboratorError "not a DOCX");
     utf8_decode := fun _ => Ok "hello";
     titan_embedding := fun _ _ => Ok [1%Q];
     claude_text := fun _ _ => Ok "an answer";
     pg_fault := fun _ => None;
     pg_now := fun n => Z.of_nat n;
     cosine_distance := fun a b => Qabs (first_component a - first_component b);
     pg_limit := fun _ => Raise (Exn CollaboratorError "invalid input syntax for type bigint");
     json_loads := fun s => if String.eqb s demo_request_text
                            then Ok (JObj demo_request)
                            else Raise (Exn ValueError "Expecting value");
     py_str := fun _ => "" |}.

(** The same world with a database that fails at call number [n]. *)
Definition failing_at (n : nat) : world :=
  {| s3_body := s3_body demo_world;
     md5_hexdigest := md5_hexdigest demo_world;
     pdf_pages := pdf_pages demo_world;
     docx_paragraphs := docx_paragraphs demo_world;
     utf8_decode := utf8_decode demo_world;
     titan_embedding := titan_embedding demo_world;
     claude_text := claude_text demo_world;
     pg_fault := fun k => if Nat.eqb k n
                          then Some (Exn CollaboratorError "server closed the connection")
                          else None;
     pg_now := pg_now demo_world;
     cosine_distance := cosine_distance demo_world;
     pg_limit := pg_limit demo_world;
     json_loads := json_loads demo_world;
     py_str := py_str demo_world |}.

Definition upload (key : string) : s3_event :=
  S3Event [S3Record "docs" key].

(** A database holding one earlier version of [notes.txt]. *)
Definition old_version : db :=
  Db [ChunkRow "old text" [0%Q] "notes.txt" 0 "0123";
      ChunkRow "more old text" [2%Q] "notes.txt" 1 "0123"]
     {["notes.txt" := FileRow "0123" 2 0]}.

(** A database holding the version of [notes.txt] that the concrete world
    serves. *)
Definition same_version : db :=
  Db [ChunkRow "hello" [1%Q] "notes.txt" 0 "5d41402abc4b2a76b9719d911017c592"]
     {["notes.txt" := FileRow "5d41402abc4b2a76b9719d911017c592" 1 0]}.

(** Three chunks of two documents, at distances 1, 2 and 0 from the
    embedding [[1]] that the concrete world gives every question. *)
Definition library : db :=
  Db [ChunkRow "Paris is the capital of France." [0%Q] "doc1" 0 "a1";
      ChunkRow "Lyon is a city in France." [3%Q] "doc1" 1 "a1";
      ChunkRow "The capital of France is Paris." [1%Q] "doc2" 0 "b2"]
     (list_to_map [("doc1", FileRow "a1" 2 0); ("doc2", FileRow "b2" 1 1)]).

Definition ask (top_k : json) : json :=
  JObj (list_to_map [("question", JStr "what?"); ("top_k", top_k)]).

(** The same world with an embedding model that is not available. *)
Definition without_embeddings : world :=
  {| s3_body := s3_body demo_world;
     md5_hexdigest := md5_hexdigest demo_world;
     pdf_pages := pdf_pages demo_world;
     docx_paragraphs := docx_paragraphs demo_world;
     utf8_decode := utf8_decode demo_world;
     titan_embedding := fun _ _ => Raise (Exn CollaboratorError "ModelUnavailable");
     claude_text := claude_text demo_world;
     pg_fault := pg_fault demo_world;
     pg_now := pg_now demo_world;
     cosine_distance := cosine_distance demo_world;
     pg_limit := pg_limit demo_world;
     json_loads := json_loads demo_world;
     py_str := py_str demo_world |}.

(** The value [body.get('top_k', 5)] of a request body. *)
Definition requested_top_k (m : gmap string json) : json :=
  match m !! "top_k" with
  | Some v => v
  | None => JInt 5
  end.

(** ** Further notions *)

(** The last character of a string. *)
Fixpoint last_char (s : string) : option ascii :=
  match s with
  | EmptyString => None
  | String c EmptyString => Some c
  | String _ t => last_char t
  end.

(** The calls that release the cursor and the connection. *)
Definition is_close (c : call) : bool :=
  match c with
  | DbCursorClose | DbClose => true
  | _ => false
  end.

(** A computation that makes no embedding call. *)
Definition embeds_nothing {A} (m : M A) : Prop :=
  forall s r s', m s = (r, s') ->
    exists t, calls s' = calls s ++ t /\ Forall (fun c => is_embed c = false) t.

(** A computation whose calls split into calls that do not write, followed
    by calls that do not embed. *)
Definition embeds_before_writing {A} (m : M A) : Prop :=
  forall s r s', m s = (r, s') ->
    exists t1 t2, calls s' = calls s ++ t1 ++ t2 /\
      Forall (fun c => is_write c = false) t1 /\
      Forall (fun c => is_embed c = false) t2.

(** A computation that releases nothing unless it returns. *)
Definition closes_only_on_return {A} (m : M A) : Prop :=
  forall s r s', m s = (r, s') ->
    exists t, calls s' = calls s ++ t /\
      ((exists a, r = Ok a) \/ Forall (fun c => is_close c = false) t).

(** The concrete world with a text decoder that finds no text. *)
Definition blank_world : world :=
  {| s3_body := s3_body demo_world;
     md5_hexdigest := md5_hexdigest demo_world;
     pdf_pages := pdf_pages demo_world;
     docx_paragraphs := docx_paragraphs demo_world;
     utf8_decode := fun _ => Ok "";
     titan_embedding := titan_embedding demo_world;
     claude_text := claude_text demo_world;
     pg_fault := pg_fault demo_world;
     pg_now := pg_now demo_world;
     cosine_distance := cosine_distance demo_world;
     pg_limit := pg_limit demo_world;
     json_loads := json_loads demo_world;
     py_str := py_str demo_world |}.

(** The concrete world with readers that find three pages, the second one
    empty, and three paragraphs, the second one empty. *)
Definition paged_world : world :=
  {| s3_body := s3_body demo_world;
     md5_hexdigest := md5_hexdigest demo_world;
     pdf_pages := fun _ => Ok [Ok "first page"; Ok ""; Ok "third page"];
     docx_paragraphs := fun _ => Ok ["first paragraph"; ""; "third paragraph"];
     utf8_decode := utf8_decode demo_world;
     titan_embedding := titan_embedding demo_world;
     claude_text := claude_text demo_world;
     pg_fault := pg_fault demo_world;
     pg_now := pg_now demo_world;
     cosine_distance := cosine_distance demo_world;
     pg_limit := pg_limit demo_world;
     json_loads := json_loads demo_world;
     py_str := py_str demo_world |}.


(** * Properties *)

(** ** Calls that leave the committed contents alone *)

Section Quiet.
Context (w : world) (Q : call -> bool).

Lemma quiet_ret {A} (a : A) : quiet Q (ret a).
Proof.
  intros s r s' H. inversion H; subst. split; [reflexivity|].
  exists []. rewrite app_nil_r. auto.
Qed.

Lemma quiet_lift {A} (x : result A) : quiet Q (lift x).
Proof.
  intros s r s' H. inversion H; subst. split; [reflexivity|].
  exists []. rewrite app_nil_r. auto.
Qed.

Lemma quiet_bind {A B} (m : M A) (k : A -> M B) :
  quiet Q m -> (forall a, quiet Q (k a)) -> quiet Q (bind m k).
Proof.
  intros Hm Hk s r s' H. unfold bind in H.
  destruct (m s) as [[a|e] s1] eqn:E.
  - destruct (Hm _ _ _ E) as (Hc & t & Ht & Hall).
    destruct (Hk a _ _ _ H) as (Hc' & t' & Ht' & Hall').
    split; [congruence|].
    exists (t ++ t'). split.
    + rewrite Ht', Ht. by rewrite app_assoc.
    + apply Forall_app. split; [assumption|].
      rewrite Hc in Hall'. assumption.
  - inversion H; subst. exact (Hm _ _ _ E).
Qed.

(** A computation that always raises cuts off what follows it. *)
Lemma quiet_bind_ok {A B} (a : A) (k : A -> M B) :
  quiet Q (k a) -> quiet Q (bind (lift (Ok a)) k).
Proof. intros H. exact H. Qed.

Lemma quiet_bind_raise {A B} (m : M A) (k : A -> M B) :
  quiet Q m -> (forall s a s', m s <> (Ok a, s')) -> quiet Q (bind m k).
Proof.
  intros Hm Hraise s r s' H. unfold bind in H.
  destruct (m s) as [[a|e] s1] eqn:E.
  - exfalso. exact (Hraise _ _ _ E).
  - inversion H; subst. exact (Hm _ _ _ E).
Qed.

Lemma quiet_one_call (c : call) (s : state) (sess : option db) :
  Q c = true ->
  committed (record_call c (State (committed s) sess (trace s))) = committed s /\
  exists t, trace (record_call c (State (committed s) sess (trace s))) = trace s ++ t /\
    Forall (fun cd : call * db => Q cd.1 = true /\ cd.2 = committed s) t.
Proof.
  intros HQ. split; [reflexivity|].
  exists [(c, committed s)]. split; [reflexivity|].
  constructor; [auto|constructor].
Qed.

Lemma quiet_record (c : call) (s : state) :
  Q c = true ->
  committed (record_call c s) = committed s /\
  exists t, trace (record_call c s) = trace s ++ t /\
    Forall (fun cd : call * db => Q cd.1 = true /\ cd.2 = committed s) t.
Proof.
  intros HQ. destruct s as [c0 se tr]. exact (quiet_one_call c (State c0 se tr) se HQ).
Qed.

Lemma quiet_s3_get_object bucket key :
  Q (S3GetObject bucket key) = true -> quiet Q (s3_get_object w bucket key).
Proof.
  intros HQ s r s' H. unfold s3_get_object in H. inversion H; subst.
  by apply quiet_record.
Qed.

Lemma quiet_get_embedding text :
  Q (Embed text) = true -> quiet Q (get_embedding w text).
Proof.
  intros HQ s r s' H. unfold get_embedding in H. inversion H; subst.
  by apply quiet_record.
Qed.

Lemma quiet_get_db_connection :
  Q DbConnect = true -> quiet Q (get_db_connection w).
Proof.
  intros HQ s r s' H. unfold get_db_connection in H.
  destruct (pg_fault w (tick s)); inversion H; subst.
  - by apply quiet_record.
  - by apply quiet_one_call.
Qed.

Lemma quiet_db_statement {A} (c : call) (run : db -> A * db) :
  Q c = true -> quiet Q (db_statement w c run).
Proof.
  intros HQ s r s' H. unfold db_statement in H.
  destruct (session s) as [d|].
  - destruct (pg_fault w (tick s)).
    + inversion H; subst. by apply quiet_record.
    + destruct (run d) as [a d']. inversion H; subst. by apply quiet_one_call.
  - inversion H; subst. split; [reflexivity|].
    exists []. rewrite app_nil_r. auto.
Qed.

Lemma quiet_cursor_close : Q DbCursorClose = true -> quiet Q cursor_close.
Proof.
  intros HQ s r s' H. unfold cursor_close in H. inversion H; subst.
  by apply quiet_record.
Qed.

Lemma quiet_conn_close : Q DbClose = true -> quiet Q conn_close.
Proof.
  intros HQ s r s' H. unfold conn_close in H. inversion H; subst.
  by apply quiet_one_call.
Qed.

Lemma quiet_select_file_hash key :
  Q (DbSelectHash key) = true -> quiet Q (select_file_hash w key).
Proof. apply quiet_db_statement. Qed.

Lemma quiet_extract_text_call file_obj filename :
  Q (ExtractText filename) = true ->
  quiet Q (Processor.extract_text_call w file_obj filename).
Proof.
  intros HQ s r s' H. unfold Processor.extract_text_call in H. inversion H; subst.
  by apply quiet_record.
Qed.

Lemma quiet_embed_chunks key file_hash chunks :
  (forall text, Q (Embed text) = true) ->
  forall i embeddings_data,
    quiet Q (Processor.embed_chunks w key file_hash i chunks embeddings_data).
Proof.
  intros HQ. induction chunks as [|chunk rest IH]; intros i embeddings_data; simpl.
  - apply quiet_ret.
  - apply quiet_bind; [by apply quiet_get_embedding|].
    intros embedding. apply IH.
Qed.

Lemma quiet_insert_pages pages :
  (forall rows, Q (DbInsertPage rows) = true) -> quiet Q (insert_pages w pages).
Proof.
  intros HQ. induction pages as [|page rest IH]; simpl.
  - apply quiet_ret.
  - apply quiet_bind; [by apply quiet_db_statement|]. intros _. exact IH.
Qed.

Lemma quiet_upsert_processed_file key file_hash chunk_count :
  Q (DbUpsert key file_hash chunk_count) = true ->
  quiet Q (upsert_processed_file w key file_hash chunk_count).
Proof.
  intros HQ s r s' H. unfold upsert_processed_file in H.
  exact (quiet_db_statement _ _ HQ _ _ _ H).
Qed.

Lemma quiet_select_nearest query_embedding top_k :
  Q (DbNearest query_embedding top_k) = true ->
  quiet Q (Query.select_nearest w query_embedding top_k).
Proof.
  intros HQ s r s' H. unfold Query.select_nearest in H.
  destruct (session s) as [d|].
  - destruct (pg_fault w (tick s)); inversion H; subst; by apply quiet_record.
  - inversion H; subst. split; [reflexivity|].
    exists []. rewrite app_nil_r. auto.
Qed.

Lemma quiet_similarity_search query_embedding top_k :
  Q DbConnect = true -> Q (DbNearest query_embedding top_k) = true ->
  Q DbCursorClose = true -> Q DbClose = true ->
  quiet Q (Query.similarity_search w query_embedding top_k).
Proof.
  intros H1 H2 H3 H4. unfold Query.similarity_search.
  apply quiet_bind; [by apply quiet_get_db_connection|]. intros _.
  apply quiet_bind; [by apply quiet_select_nearest|]. intros results.
  apply quiet_bind; [by apply quiet_cursor_close|]. intros _.
  apply quiet_bind; [by apply quiet_conn_close|]. intros _.
  apply quiet_ret.
Qed.

Lemma quiet_query_claude question context_chunks :
  Q (Generate (Query.build_prompt w question context_chunks)) = true ->
  quiet Q (Query.query_claude w question context_chunks).
Proof.
  intros HQ s r s' H. unfold Query.query_claude in H. inversion H; subst.
  by apply quiet_record.
Qed.

End Quiet.

Lemma quiet_weaken {A} (Q Q' : call -> bool) (m : M A) :
  (forall c, Q c = true -> Q' c = true) -> quiet Q m -> quiet Q' m.
Proof.
  intros Hsub Hm s r s' H. destruct (Hm _ _ _ H) as (Hc & t & Ht & Hall).
  split; [assumption|]. exists t. split; [assumption|].
  eapply Forall_impl; [exact Hall|]. intros cd [H1 H2]. auto.
Qed.

Lemma paginate_concat {A} (page_size : nat) (seq : list A) :
  forall room page, concat (paginate page_size room page seq) = page ++ seq.
Proof.
  induction seq as [|x rest IH]; intros room page; simpl.
  - destruct page; simpl; by rewrite ?app_nil_r.
  - destruct room; simpl; rewrite IH; [reflexivity|].
    by rewrite <- app_assoc.
Qed.

(** ** What a successful invocation of the processor leaves behind *)

Section Ingestion.
Context (w : world).

Lemma embed_chunks_ok key file_hash chunks :
  forall i embeddings_data s data s',
    Processor.embed_chunks w key file_hash i chunks embeddings_data s = (Ok data, s') ->
    committed s' = committed s /\ session s' = session s /\
    exists new, data = embeddings_data ++ new /\
      map col_chunk_text new = chunks /\
      map col_chunk_index new = seqZ i (Z.of_nat (length chunks)) /\
      Forall (fun r => col_filename r = key /\ col_file_hash r = file_hash) new.
Proof.
  induction chunks as [|chunk rest IH]; intros i embeddings_data s data s' H.
  - inversion H; subst. repeat split. exists []. rewrite app_nil_r. repeat split; constructor.
  - simpl in H. unfold bind in H at 1. unfold get_embedding in H.
    destruct (titan_embedding w (tick s) (JStr chunk)) as [embedding|e]; [|discriminate].
    apply IH in H. destruct H as (Hc & Hs & new & Hdata & Htext & Hidx & Hall).
    destruct s as [c0 se tr]. simpl in *. repeat split; try assumption.
    exists (ChunkRow chunk embedding key i file_hash :: new).
    rewrite Hdata, <- app_assoc. simpl. repeat split.
    + by rewrite Htext.
    + rewrite Hidx. 
      replace (Z.of_nat (S (length rest))) with (Z.succ (Z.of_nat (length rest))) by lia.
      rewrite (seqZ_cons i) by lia. f_equal. f_equal; lia.
    + constructor; auto.
Qed.

Lemma insert_pages_ok pages :
  forall s d0 s',
    insert_pages w pages s = (Ok tt, s') -> session s = Some d0 ->
    committed s' = committed s /\
    session s' = Some (Db (embeddings d0 ++ concat pages) (processed_files d0)).
Proof.
  induction pages as [|page rest IH]; intros s d0 s' H Hs.
  - inversion H; subst. split; [reflexivity|]. simpl. rewrite app_nil_r. by destruct d0.
  - simpl in H. unfold bind in H at 1. unfold insert_page, db_statement in H. rewrite Hs in H.
    destruct (pg_fault w (tick s)); [discriminate|]. simpl in H.
    eapply IH in H; [|reflexivity]. simpl in H. destruct H as [Hc Hs'].
    split; [assumption|]. rewrite Hs'. simpl. by rewrite <- app_assoc.
Qed.

Lemma processed_path record file_bytes d s4 resp s' :
  committed s4 = d -> session s4 = Some d ->
  (file_obj <- s3_get_object w (bucket_name record) (object_key record);;
   text <- Processor.extract_text_call w file_obj (object_key record);;
   chunks <- lift (chunk_text text);;
   embeddings_data <-
     Processor.embed_chunks w (object_key record) (md5_hexdigest w file_bytes) 0 chunks [];;
   delete_embeddings w (object_key record);;;
   execute_values w embeddings_data;;;
   upsert_processed_file w (object_key record)
     (md5_hexdigest w file_bytes) (Z.of_nat (length chunks));;;
   db_commit w;;;
   cursor_close;;;
   conn_close;;; ret (Processor.processed (object_key record) chunks))%py s4
    = (Ok resp, s') ->
  exists file_bytes0 file_obj text chunks new now,
    Processor.extract_text w file_obj (object_key record) = Ok text /\
    chunk_text text = Ok chunks /\
    resp = Processor.processed (object_key record) chunks /\
    map col_chunk_text new = chunks /\
    map col_chunk_index new = seqZ 0 (Z.of_nat (length chunks)) /\
    Forall (fun r => col_filename r = object_key record /\
                     col_file_hash r = md5_hexdigest w file_bytes0) new /\
    committed s' =
      Db (filter (fun r => col_filename r ≠ object_key record) (embeddings d) ++ new)
         (<[object_key record :=
              FileRow (md5_hexdigest w file_bytes0) (Z.of_nat (length chunks)) now]>
            (processed_files d)).
Proof.
  intros Hc Hse H.
  unfold bind at 1 in H. unfold s3_get_object at 1 in H.
  destruct (s3_body w _ _ _) as [file_obj|]; [|discriminate].
  unfold bind at 1 in H. unfold Processor.extract_text_call at 1 in H.
  destruct (Processor.extract_text w file_obj (object_key record)) as [text|] eqn:Htext;
    [|discriminate].
  unfold bind at 1 in H. unfold lift at 1 in H.
  destruct (chunk_text text) as [chunks|] eqn:Hchunks; [|discriminate].
  unfold bind at 1 in H.
  match type of H with
  | context [Processor.embed_chunks _ _ _ _ _ _ ?st] =>
      destruct (Processor.embed_chunks w (object_key record) (md5_hexdigest w file_bytes)
                  0 chunks [] st) as [[data|] s5] eqn:Hembed; [|discriminate];
      apply embed_chunks_ok in Hembed;
      destruct Hembed as (Hc5 & Hse5 & new & Hdata & Hnt & Hni & Hnall);
      simpl in Hc5, Hse5
  end.
  rewrite Hc in Hc5. rewrite Hse in Hse5. simpl in Hdata. subst data.
  unfold bind at 1 in H. unfold delete_embeddings, db_statement at 1 in H.
  rewrite Hse5 in H. destruct (pg_fault w (tick s5)); [discriminate|].
  cbv beta iota zeta in H.
  unfold bind at 1 in H.
  match type of H with
  | context [execute_values w new ?st] =>
      destruct (execute_values w new st) as [[[]|] s6] eqn:Hins; [|discriminate];
      unfold execute_values in Hins;
      eapply insert_pages_ok in Hins; [|reflexivity];
      destruct Hins as [Hc6 Hse6]; simpl in Hc6, Hse6
  end.
  rewrite paginate_concat in Hse6. simpl in Hse6.
  unfold bind at 1 in H. unfold upsert_processed_file, db_statement at 1 in H.
  rewrite Hse6 in H. destruct (pg_fault w (tick s6)); [discriminate|].
  cbv beta iota zeta in H.
  unfold bind at 1 in H. unfold db_commit at 1 in H. simpl session in H.
  cbv iota in H.
  destruct (pg_fault w _); [discriminate|].
  injection H as Hresp Hs'. subst resp s'. simpl.
  exists file_bytes, file_obj, text, chunks, new. eexists.
  repeat split; try eassumption; reflexivity.
Qed.

Lemma ingest_ok event d resp s' :
  Processor.ingest w event d = (Ok resp, s') ->
  exists record rest, Records event = record :: rest /\
    ((resp = Processor.already_processed /\ committed s' = d /\
      is_Some (processed_files d !! object_key record)) \/
     (exists file_bytes file_obj text chunks new now,
        Processor.extract_text w file_obj (object_key record) = Ok text /\
        chunk_text text = Ok chunks /\
        resp = Processor.processed (object_key record) chunks /\
        map col_chunk_text new = chunks /\
        map col_chunk_index new = seqZ 0 (Z.of_nat (length chunks)) /\
        Forall (fun r => col_filename r = object_key record /\
                         col_file_hash r = md5_hexdigest w file_bytes) new /\
        committed s' =
          Db (filter (fun r => col_filename r ≠ object_key record) (embeddings d) ++ new)
             (<[object_key record :=
                  FileRow (md5_hexdigest w file_bytes) (Z.of_nat (length chunks)) now]>
                (processed_files d)))).
Proof.
  unfold Processor.ingest, Processor.lambda_handler. intros H.
  destruct (Records event) as [|record rest]; [discriminate|].
  exists record, rest. split; [reflexivity|].
  unfold bind at 1, lift in H. 
  unfold bind at 1 in H. unfold s3_get_object at 1 in H.
  destruct (s3_body w _ _ _) as [b0|]; [|discriminate].
  unfold bind at 1 in H. unfold s3_get_object at 1 in H.
  destruct (s3_body w _ _ _) as [file_bytes|]; [|discriminate].
  unfold bind at 1 in H. unfold get_db_connection at 1 in H.
  destruct (pg_fault w _); [discriminate|].
  unfold bind at 1 in H. unfold select_file_hash, db_statement at 1 in H. 
  simpl session in H. cbv iota in H.
  destruct (pg_fault w _); [discriminate|].
  cbv beta iota zeta in H.
  match type of H with
  | _ ?st = _ => remember st as s4 eqn:E4;
                 assert (Hs4 : committed s4 = d /\ session s4 = Some d)
                   by (subst s4; split; reflexivity);
                 clear E4
  end.
  destruct Hs4 as [Hc4 Hse4].
  destruct (processed_files d !! object_key record) as [row|] eqn:Hrow; simpl in H.
  - destruct (String.eqb (pf_file_hash row) (md5_hexdigest w file_bytes)) eqn:Hhash.
    + left. inversion H; subst. simpl. repeat split; eauto.
    + right. revert H. apply processed_path; assumption.
  - right. revert H. apply processed_path; assumption.
Qed.
(** ** The transaction *)

Lemma atomic_of_quiet {A} (Q : call -> bool) (m : M A) : quiet Q m -> atomic m.
Proof.
  intros Hm s r s' H. destruct (Hm _ _ _ H) as (Hc & t & Ht & Hall).
  exists t, []. rewrite app_nil_r. repeat split; auto.
  eapply Forall_impl; [exact Hall|]. by intros cd [_ ?].
Qed.

Lemma atomic_bind {A B} (Q : call -> bool) (m : M A) (k : A -> M B) :
  quiet Q m -> (forall a, atomic (k a)) -> atomic (bind m k).
Proof.
  intros Hm Hk s r s' H. unfold bind in H.
  destruct (m s) as [[a|e] s1] eqn:E;
    destruct (Hm _ _ _ E) as (Hc & t & Ht & Hall).
  - destruct (Hk a _ _ _ H) as (t1 & t2 & Ht' & H1 & H2 & Hraise).
    exists (t ++ t1), t2. repeat split.
    + rewrite Ht', Ht. by rewrite !app_assoc.
    + apply Forall_app. split.
      * eapply Forall_impl; [exact Hall|]. by intros cd [_ ?].
      * by rewrite <- Hc.
    + assumption.
    + by destruct (Hraise _ H0).
    + destruct (Hraise _ H0). congruence.
  - inversion H; subst. exists t, []. rewrite app_nil_r. repeat split; auto.
    eapply Forall_impl; [exact Hall|]. by intros cd [_ ?].
Qed.

(** The commit and what follows it in the handler. *)
Lemma atomic_commit_and_close (resp : response) :
  atomic (db_commit w ;;; cursor_close ;;; conn_close ;;; ret resp).
Proof.
  intros s r s' H. unfold bind at 1 in H. unfold db_commit in H.
  destruct (session s) as [d|].
  - destruct (pg_fault w (tick s)).
    + inversion H; subst. exists [(DbCommit, committed s)], [].
      repeat split; auto.
    + inversion H; subst. simpl.
      exists [], [(DbCommit, d); (DbCursorClose, d); (DbClose, d)].
      repeat split; auto; try discriminate.
      by rewrite <- !app_assoc.
  - inversion H; subst. exists [], []. rewrite !app_nil_r. repeat split; auto.
Qed.

Lemma handler_atomic event : atomic (Processor.lambda_handler w event).
Proof.
  pose (Q := fun _ : call => true).
  unfold Processor.lambda_handler.
  apply (atomic_bind Q); [apply quiet_lift|]. intros record.
  apply (atomic_bind Q); [by apply quiet_s3_get_object|]. intros _.
  apply (atomic_bind Q); [by apply quiet_s3_get_object|]. intros file_bytes.
  apply (atomic_bind Q); [by apply quiet_get_db_connection|]. intros _.
  apply (atomic_bind Q); [by apply quiet_select_file_hash|]. intros result.
  destruct (match result with Some stored => _ | None => false end).
  - apply (atomic_of_quiet Q).
    apply quiet_bind; [by apply quiet_cursor_close|]. intros _.
    apply quiet_bind; [by apply quiet_conn_close|]. intros _.
    apply quiet_ret.
  - apply (atomic_bind Q); [by apply quiet_s3_get_object|]. intros file_obj.
    apply (atomic_bind Q); [by apply quiet_extract_text_call|]. intros text.
    apply (atomic_bind Q); [apply quiet_lift|]. intros chunks.
    apply (atomic_bind Q); [by apply quiet_embed_chunks|]. intros embeddings_data.
    apply (atomic_bind Q); [by apply quiet_db_statement|]. intros _.
    apply (atomic_bind Q); [by apply quiet_insert_pages|]. intros _.
    apply (atomic_bind Q); [by apply quiet_upsert_processed_file|]. intros _.
    apply atomic_commit_and_close.
Qed.

End Ingestion.

(** ** Replacing the chunk rows of one key *)

Lemma filter_other_key (key : string) (rows : list chunk_row) :
  filter (fun r => col_filename r = key)
    (filter (fun r => col_filename r ≠ key) rows) = [].
Proof.
  induction rows as [|r rows IH]; [reflexivity|].
  destruct (decide (col_filename r = key)) as [Heq|Hne].
  - rewrite (filter_cons_False (fun r => col_filename r ≠ key))
      by (intros H; exact (H Heq)).
    exact IH.
  - rewrite (filter_cons_True (fun r => col_filename r ≠ key)) by assumption.
    rewrite (filter_cons_False (fun r => col_filename r = key)) by assumption.
    exact IH.
Qed.

Lemma filter_same_key (key : string) (rows : list chunk_row) :
  Forall (fun r => col_filename r = key) rows ->
  filter (fun r => col_filename r = key) rows = rows.
Proof.
  induction 1 as [|r rows Hr _ IH]; [reflexivity|].
  rewrite filter_cons_True by assumption. by rewrite IH.
Qed.

Lemma filter_different_key (key key' : string) (rows : list chunk_row) :
  key' ≠ key ->
  Forall (fun r => col_filename r = key) rows ->
  filter (fun r => col_filename r = key') rows = [].
Proof.
  intros Hne. induction 1 as [|r rows Hr _ IH]; [reflexivity|].
  rewrite filter_cons_False by congruence. exact IH.
Qed.

Lemma filter_keeps_other_key (key key' : string) (rows : list chunk_row) :
  key' ≠ key ->
  filter (fun r => col_filename r = key')
    (filter (fun r => col_filename r ≠ key) rows)
  = filter (fun r => col_filename r = key') rows.
Proof.
  intros Hne. induction rows as [|r rows IH]; [reflexivity|].
  destruct (decide (col_filename r = key)) as [Heq|Hne'].
  - rewrite (filter_cons_False (fun r => col_filename r ≠ key)) by (intros H; exact (H Heq)).
    rewrite (filter_cons_False (fun r => col_filename r = key')) by congruence.
    exact IH.
  - rewrite (filter_cons_True (fun r => col_filename r ≠ key)) by assumption.
    destruct (decide (col_filename r = key')) as [Heq'|Hne''].
    + rewrite !(filter_cons_True (fun r => col_filename r = key')) by assumption.
      by rewrite IH.
    + rewrite !(filter_cons_False (fun r => col_filename r = key')) by assumption.
      exact IH.
Qed.

Lemma chunks_of_replaced (key : string) (d : db) (new : list chunk_row)
    (files : gmap string file_row) :
  Forall (fun r => col_filename r = key) new ->
  chunks_of (Db (filter (fun r => col_filename r ≠ key) (embeddings d) ++ new) files) key
  = new.
Proof.
  intros Hnew. unfold chunks_of. simpl.
  rewrite filter_app, filter_other_key. simpl. by apply filter_same_key.
Qed.

Lemma chunks_of_untouched (key key' : string) (d : db) (new : list chunk_row)
    (files : gmap string file_row) :
  key' ≠ key ->
  Forall (fun r => col_filename r = key) new ->
  chunks_of (Db (filter (fun r => col_filename r ≠ key) (embeddings d) ++ new) files) key'
  = chunks_of d key'.
Proof.
  intros Hne Hnew. unfold chunks_of. simpl.
  rewrite filter_app, (filter_different_key key key' new Hne Hnew), app_nil_r.
  by apply filter_keeps_other_key.
Qed.


Lemma replaced_contiguous (key file_hash : string) (now : Z) (d : db)
    (chunks : list string) (new : list chunk_row) :
  Forall (fun r => col_filename r = key) new ->
  map col_chunk_index new = seqZ 0 (Z.of_nat (length chunks)) ->
  (forall k, contiguous d k) ->
  forall k,
    contiguous (Db (filter (fun r => col_filename r ≠ key) (embeddings d) ++ new)
                   (<[key := FileRow file_hash (Z.of_nat (length chunks)) now]>
                      (processed_files d))) k.
Proof.
  intros Hkey Hidx Hd k. unfold contiguous.
  destruct (decide (k = key)) as [->|Hne].
  - cbn [processed_files]. rewrite lookup_insert_eq.
    rewrite chunks_of_replaced by assumption. exact Hidx.
  - cbn [processed_files]. rewrite lookup_insert_ne by congruence.
    rewrite chunks_of_untouched by assumption. apply Hd.
Qed.

Lemma Forall_filename (key file_hash : string) (new : list chunk_row) :
  Forall (fun r => col_filename r = key /\ col_file_hash r = file_hash) new ->
  Forall (fun r => col_filename r = key) new.
Proof. intros H. eapply Forall_impl; [exact H|]. by intros r [? _]. Qed.

Lemma ingest_raise_keeps (w : world) event d e s' :
  Processor.ingest w event d = (Raise e, s') -> committed s' = d.
Proof.
  intros H. destruct (handler_atomic w event _ _ _ H) as (t1 & t2 & _ & _ & _ & Hraise).
  by destruct (Hraise e eq_refl).
Qed.

Lemma ingest_preserves_contiguous (w : world) event d :
  (forall k, contiguous d k) ->
  forall k, contiguous (committed (Processor.ingest w event d).2) k.
Proof.
  intros Hd k. destruct (Processor.ingest w event d) as [[resp|e] s'] eqn:H; simpl.
  - destruct (ingest_ok w _ _ _ _ H) as (record & rest & _ & Hcases).
    destruct Hcases as [(_ & -> & _) | Hnew]; [apply Hd|].
    destruct Hnew as (fb & fo & text & chunks & new & now & _ & _ & _ & _ & Hidx
                      & Hall & ->).
    apply replaced_contiguous; [by eapply Forall_filename|exact Hidx|exact Hd].
  - rewrite (ingest_raise_keeps _ _ _ _ _ H). apply Hd.
Qed.

Lemma reachable_contiguous d : reachable d -> forall k, contiguous d k.
Proof.
  induction 1 as [|w event d _ IH].
  - intros k. reflexivity.
  - by apply ingest_preserves_contiguous.
Qed.

(** ** The processor: short circuit, atomic replacement, chunk indices *)

Section ProcessorClaims.
Context (w : world).

(** C1.  When the object store serves [bytes] for the key, the database
    answers, and the stored hash of the key is the MD5 hash of [bytes], the
    handler returns status 200 with the message [File already processed];
    the committed contents are the ones it started from, and the calls it
    made are the two fetches, the connection, the hash lookup and the two
    closes: no delete, insert, upsert or commit, no extraction and no
    embedding. *)
Theorem unchanged_upload_short_circuits bucket key rest d bytes row :
  (forall n, s3_body w n bucket key = Ok bytes) ->
  (forall n, pg_fault w n = None) ->
  processed_files d !! key = Some row ->
  pf_file_hash row = md5_hexdigest w bytes ->
  exists s',
    Processor.ingest w (S3Event (S3Record bucket key :: rest)) d
      = (Ok Processor.already_processed, s') /\
    statusCode Processor.already_processed = 200 /\
    body Processor.already_processed = JStr "File already processed" /\
    committed s' = d /\
    session s' = None /\
    snapshots s' = [d; d; d; d; d; d] /\
    calls s' = [S3GetObject bucket key; S3GetObject bucket key; DbConnect;
                DbSelectHash key; DbCursorClose; DbClose] /\
    Forall (fun c => is_write c = false /\ is_extract c = false /\ is_embed c = false)
      (calls s').
Proof.
  intros Hs3 Hpg Hrow Hhash.
  unfold Processor.ingest, Processor.lambda_handler.
  unfold bind, lift, s3_get_object, get_db_connection, select_file_hash, db_statement.
  simpl. rewrite !Hs3, !Hpg. simpl.
  rewrite Hrow. simpl. rewrite Hhash, String.eqb_refl.
  eexists. split; [reflexivity|]. simpl.
  repeat split; repeat constructor.
Qed.


(** C3.  Start from a database that invocations of the processor have
    built.  After an invocation that returns a response, the document of the
    uploaded key has a metadata row, and the indices of its chunk rows are
    exactly [0 .. chunk_count - 1], in order and without repetition.  When
    the invocation processed the file, the chunk rows are the new ones only:
    their texts are the Chunker's output for the extracted text, in the
    Chunker's order, [chunk_count] is their number, and every row carries
    the new hash. *)
Theorem chunk_indices_are_contiguous event record rest d resp s' :
  reachable d ->
Records event = record :: rest ->
Processor.ingest w event d = (Ok resp, s') ->
exists row,
  processed_files (committed s') !! object_key record = Some row /\
  map col_chunk_index (chunks_of (committed s') (object_key record))
    = seqZ 0 (pf_chunk_count row) /\
  NoDup (map col_chunk_index (chunks_of (committed s') (object_key record))) /\
  ((resp = Processor.already_processed /\ committed s' = d) \/
   (exists file_obj text chunks,
      Processor.extract_text w file_obj (object_key record) = Ok text /\
      chunk_text text = Ok chunks /\
      resp = Processor.processed (object_key record) chunks /\
      pf_chunk_count row = Z.of_nat (length chunks) /\
      map col_chunk_text (chunks_of (committed s') (object_key record)) = chunks /\
      Forall (fun r => col_file_hash r = pf_file_hash row)
        (chunks_of (committed s') (object_key record)))).
Proof.
intros Hreach Hrec H.
destruct (ingest_ok w _ _ _ _ H) as (record' & rest' & Hrec' & Hcases).
rewrite Hrec in Hrec'. injection Hrec' as <- <-.
destruct Hcases as [(-> & -> & [row Hrow]) | Hnew].
- exists row. pose proof (reachable_contiguous d Hreach (object_key record)) as Hc.
  unfold contiguous in Hc. rewrite Hrow in Hc.
  repeat split; [assumption|assumption|rewrite Hc; apply NoDup_seqZ|by left].
- destruct Hnew as (fb & fo & text & chunks & new & now & Htext & Hchunks & ->
                    & Hnt & Hidx & Hall & ->).
  pose proof (Forall_filename _ _ _ Hall) as Hkey.
  eexists. cbn [processed_files]. rewrite lookup_insert_eq.
  rewrite chunks_of_replaced by assumption.
  repeat split; [exact Hidx|rewrite Hidx; apply NoDup_seqZ|].
  right. exists fo, text, chunks. repeat split; try assumption.
  eapply Forall_impl; [exact Hall|]. by intros r [_ ?].
Qed.

(** The text extractor rejects every other suffix, whatever the bytes. *)
Lemma unsupported_extract_text filename :
  supported filename = false ->
  forall file_obj,
    Processor.extract_text w file_obj filename
    = Raise (Exn ValueError ("Unsupported file type: " +:+ filename)).
Proof.
  unfold supported, Processor.extract_text. intros H file_obj.
  apply orb_false_elim in H. destruct H as [H Htxt].
  apply orb_false_elim in H. destruct H as [Hpdf Hdocx].
  by rewrite Hpdf, Hdocx, Htxt.
Qed.

Lemma handler_quiet_unsupported event record rest :
Records event = record :: rest ->
supported (object_key record) = false ->
quiet no_write_no_embed (Processor.lambda_handler w event).
Proof.
intros Hrec Hsup. unfold Processor.lambda_handler. rewrite Hrec.
apply quiet_bind_ok.
apply quiet_bind; [by apply quiet_s3_get_object|]. intros _.
apply quiet_bind; [by apply quiet_s3_get_object|]. intros file_bytes.
apply quiet_bind; [by apply quiet_get_db_connection|]. intros _.
apply quiet_bind; [by apply quiet_select_file_hash|]. intros result.
destruct (match result with Some stored => _ | None => false end).
- apply quiet_bind; [by apply quiet_cursor_close|]. intros _.
  apply quiet_bind; [by apply quiet_conn_close|]. intros _.
  apply quiet_ret.
- apply quiet_bind; [by apply quiet_s3_get_object|]. intros file_obj.
  apply quiet_bind_raise; [by apply quiet_extract_text_call|].
  intros s a s' H. unfold Processor.extract_text_call in H.
  rewrite unsupported_extract_text in H by assumption. discriminate.
Qed.

(** C5, as the code has it.  For a key whose lower-cased name ends in none
    of [.pdf], [.docx], [.txt]: the text extractor raises the unsupported
    file type error whatever the bytes; an invocation for that key never
    makes an embedding call or a write to the store and leaves the
    committed contents alone; it either raises or reports the stored hash
    as already processed; and when the object store and the database
    answer and the stored hash differs from the upload's, it raises the
    unsupported file type error after the two fetches, the connection, the
    hash lookup, the third fetch and the call of the extractor. *)
Theorem unsupported_suffix_fails_before_embedding event record rest d r s' :
Records event = record :: rest ->
supported (object_key record) = false ->
Processor.ingest w event d = (r, s') ->
(forall file_obj,
   Processor.extract_text w file_obj (object_key record)
   = Raise (Exn ValueError ("Unsupported file type: " +:+ object_key record))) /\
committed s' = d /\
Forall (fun c => is_write c = false /\ is_embed c = false) (calls s') /\
(r = Ok Processor.already_processed \/ exists e, r = Raise e) /\
(forall bytes,
   (forall n, s3_body w n (bucket_name record) (object_key record) = Ok bytes) ->
   (forall n, pg_fault w n = None) ->
   pf_file_hash <$> processed_files d !! object_key record
     <> Some (md5_hexdigest w bytes) ->
   r = Raise (Exn ValueError ("Unsupported file type: " +:+ object_key record)) /\
   calls s' = [S3GetObject (bucket_name record) (object_key record);
               S3GetObject (bucket_name record) (object_key record);
               DbConnect; DbSelectHash (object_key record);
               S3GetObject (bucket_name record) (object_key record);
               ExtractText (object_key record)]).
Proof.
intros Hrec Hsup H. split; [by apply unsupported_extract_text|].
destruct (handler_quiet_unsupported _ _ _ Hrec Hsup _ _ _ H) as (Hc & t & Ht & Hall).
simpl in Hc, Ht. split; [exact Hc|]. split; [|split].
- unfold calls. rewrite Ht. apply Forall_map.
  eapply Forall_impl; [exact Hall|]. intros [c snapshot] [HQ _]. simpl in *.
  unfold no_write_no_embed in HQ. apply andb_prop in HQ. destruct HQ as [Hw He].
  split; by apply negb_true_iff.
- destruct r as [resp|e]; [left|right; by exists e].
  destruct (ingest_ok w _ _ _ _ H) as (record' & rest' & Hrec' & Hcases).
  rewrite Hrec in Hrec'. injection Hrec' as <- <-.
  destruct Hcases as [(-> & _) | Hnew]; [reflexivity|].
  destruct Hnew as (fb & fo & text & chunks & new & now & Htext & _).
  rewrite unsupported_extract_text in Htext by assumption. discriminate.
- intros bytes Hs3 Hpg Hhash. revert H.
  unfold Processor.ingest, Processor.lambda_handler. rewrite Hrec.
  unfold bind, lift, s3_get_object, get_db_connection, select_file_hash,
    db_statement, Processor.extract_text_call.
  simpl. rewrite !Hs3, !Hpg. simpl.
  destruct (processed_files d !! object_key record) as [row|]; simpl in *.
  + destruct (String.eqb_spec (pf_file_hash row) (md5_hexdigest w bytes)) as [Heq|Hne].
    * exfalso. apply Hhash. by rewrite Heq.
    * rewrite !Hs3. rewrite unsupported_extract_text by assumption.
      intros H. by inversion H.
  + rewrite !Hs3. rewrite unsupported_extract_text by assumption.
    intros H. by inversion H.
Qed.

End ProcessorClaims.

(** ** The processor on concrete uploads *)

(** An unchanged [notes.txt] is reported as already processed. *)
Lemma unchanged_upload_short_circuits_witness :
  exists s',
    Processor.ingest demo_world (S3Event [S3Record "docs" "notes.txt"]) same_version
      = (Ok Processor.already_processed, s') /\
    statusCode Processor.already_processed = 200 /\
    body Processor.already_processed = JStr "File already processed" /\
    committed s' = same_version /\
    session s' = None /\
    snapshots s' = [same_version; same_version; same_version; same_version;
                    same_version; same_version] /\
    calls s' = [S3GetObject "docs" "notes.txt"; S3GetObject "docs" "notes.txt";
                DbConnect; DbSelectHash "notes.txt"; DbCursorClose; DbClose] /\
    Forall (fun c => is_write c = false /\ is_extract c = false /\ is_embed c = false)
      (calls s').
Proof.
  apply (unchanged_upload_short_circuits demo_world "docs" "notes.txt" [] same_version
           [Byte.x68; Byte.x65; Byte.x6c; Byte.x6c; Byte.x6f]
           (FileRow "5d41402abc4b2a76b9719d911017c592" 1 0)).
  - intros n. reflexivity.
  - intros n. reflexivity.
  - vm_compute. reflexivity.
  - reflexivity.
Defined.


(** The first upload of [notes.txt] into the empty database. *)
Lemma chunk_indices_are_contiguous_witness :
  exists row,
    processed_files
      (committed (Processor.ingest demo_world (upload "notes.txt") empty_db).2)
      !! "notes.txt" = Some row /\
    map col_chunk_index
      (chunks_of (committed (Processor.ingest demo_world (upload "notes.txt") empty_db).2)
         "notes.txt")
    = seqZ 0 (pf_chunk_count row).
Proof.
  destruct (chunk_indices_are_contiguous demo_world (upload "notes.txt")
              (S3Record "docs" "notes.txt") [] empty_db
              (Processor.processed "notes.txt" ["hello"])
              (Processor.ingest demo_world (upload "notes.txt") empty_db).2)
    as (row & Hrow & Hidx & _).
  - exact reachable_empty.
  - reflexivity.
  - vm_compute. reflexivity.
  - exists row. split; assumption.
Defined.

(** [report.xlsx]: the handler raises after the hash lookup, without any
    embedding call or write. *)
Lemma unsupported_suffix_fails_before_embedding_witness :
  (Processor.ingest demo_world (upload "report.xlsx") empty_db).1
    = Raise (Exn ValueError "Unsupported file type: report.xlsx") /\
  calls (Processor.ingest demo_world (upload "report.xlsx") empty_db).2
    = [S3GetObject "docs" "report.xlsx"; S3GetObject "docs" "report.xlsx";
       DbConnect; DbSelectHash "report.xlsx";
       S3GetObject "docs" "report.xlsx"; ExtractText "report.xlsx"].
Proof.
  destruct (unsupported_suffix_fails_before_embedding demo_world (upload "report.xlsx")
              (S3Record "docs" "report.xlsx") [] empty_db
              (Processor.ingest demo_world (upload "report.xlsx") empty_db).1
              (Processor.ingest demo_world (upload "report.xlsx") empty_db).2)
    as (_ & _ & _ & _ & Hrun).
  - reflexivity.
  - vm_compute. reflexivity.
  - vm_compute. reflexivity.
  - apply (Hrun [Byte.x68; Byte.x65; Byte.x6c; Byte.x6c; Byte.x6f]).
    + intros n. reflexivity.
    + intros n. reflexivity.
    + vm_compute. discriminate.
Defined.

(** C5 as the specification words it does not hold: on [report.xlsx] the
    handler has opened the connection and looked the hash up before the
    extractor rejects the file. *)
Lemma unsupported_suffix_reaches_storage :
  ~ (forall (w : world) (event : s3_event) (record : s3_record)
            (rest : list s3_record) (d : db) (r : result response) (s' : state),
Records event = record :: rest ->
supported (object_key record) = false ->
Processor.ingest w event d = (r, s') ->
(exists e, r = Raise e) /\
Forall (fun c => is_embed c = false /\ is_storage c = false) (calls s')).
Proof.
intros Hclaim.
destruct (Hclaim demo_world (upload "report.xlsx") (S3Record "docs" "report.xlsx") []
       empty_db
       (Processor.ingest demo_world (upload "report.xlsx") empty_db).1
       (Processor.ingest demo_world (upload "report.xlsx") empty_db).2
       eq_refl eq_refl eq_refl) as [_ Hcalls].
vm_compute in Hcalls.
inversion Hcalls as [|c1 l1 _ H1]; subst.
inversion H1 as [|c2 l2 _ H2]; subst.
inversion H2 as [|c3 l3 [_ Hstorage] _]; subst.
discriminate Hstorage.
Qed.

(** ** The search: order, similarity, limit *)

Section Search.
Context (w : world) (q : vec).



Lemma insert_by_distance_perm r sorted :
  Permutation (Query.insert_by_distance w q r sorted) (r :: sorted).
Proof.
  induction sorted as [|r' rest IH]; simpl; [reflexivity|].
  destruct (Qle_bool _ _); [reflexivity|].
  rewrite IH. apply perm_swap.
Qed.

Lemma order_by_distance_perm rows :
  Permutation (Query.order_by_distance w q rows) rows.
Proof.
  induction rows as [|r rows IH]; simpl; [reflexivity|].
  rewrite insert_by_distance_perm. by constructor.
Qed.





(** The statement run by [similarity_search], for an integer limit. *)
Lemma nearest_int k rows :
  0 <= k ->
  Query.nearest w q (JInt k) rows
  = Ok (map (Query.select_hit w q)
          (firstn (Z.to_nat k) (Query.order_by_distance w q rows))).
Proof.
  intros Hk. unfold Query.nearest, Query.limit_of.
  destruct (Z.ltb_spec k 0); [lia|reflexivity].
Qed.

Lemma nearest_negative k rows :
  k < 0 ->
  Query.nearest w q (JInt k) rows
  = Raise (Exn CollaboratorError "LIMIT must not be negative").
Proof.
  intros Hk. unfold Query.nearest, Query.limit_of.
  destruct (Z.ltb_spec k 0); [reflexivity|lia].
Qed.

(** What [similarity_search] returns, when it returns. *)
Lemma similarity_search_ok top_k s hits s' :
  Query.similarity_search w q top_k s = (Ok hits, s') ->
  Query.nearest w q top_k (embeddings (committed s)) = Ok hits.
Proof.
  unfold Query.similarity_search, bind, get_db_connection, Query.select_nearest.
  destruct (pg_fault w (tick s)); [discriminate|]. simpl.
  destruct (pg_fault w _); [discriminate|].
  destruct (Query.nearest w q top_k (embeddings (committed s))); [|discriminate].
  simpl. intros H. by inversion H.
Qed.


End Search.

(** ** The query handler *)

Section QueryClaims.
Context (w : world).

(** The handler on a request body that is a dictionary: only the values of
    [question] and [top_k] matter. *)
Lemma handle_body event m s :
  Query.request_body w event = Ok (JObj m) ->
  Query.handle w event s
  = (let question := match m !! "question" with Some v => v | None => JNull end in
     if negb (truthy question) then ret Query.missing_question
     else
       query_embedding <- get_embedding w question ;;
       context_chunks <- Query.similarity_search w query_embedding (requested_top_k m) ;;
       answer <- Query.query_claude w question context_chunks ;;
       ret (Query.answered question answer context_chunks)) s.
Proof.
  intros Hbody. unfold Query.handle. unfold bind at 1. unfold lift at 1.
  rewrite Hbody. reflexivity.
Qed.

(** What the [try] block can return. *)
Lemma handle_ok event s resp s' :
  Query.handle w event s = (Ok resp, s') ->
  (resp = Query.missing_question /\ s' = s) \/
  (exists question answer hits n,
     resp = Query.answered question answer hits /\
     claude_text w n (Query.build_prompt w question hits) = Ok answer /\
     In (Embed question) (calls s') /\
     In (Generate (Query.build_prompt w question hits)) (calls s')).
Proof.
  unfold Query.handle. unfold bind at 1. unfold lift at 1.
  destruct (Query.request_body w event) as [body|]; [|discriminate].
  unfold bind at 1. unfold lift at 1.
  destruct (Query.dict_get body "question" JNull) as [question|]; [|discriminate].
  unfold bind at 1. unfold lift at 1.
  destruct (Query.dict_get body "top_k" (JInt 5)) as [top_k|]; [|discriminate].
  destruct (negb (truthy question)).
  - intros H. inversion H. by left.
  - unfold bind at 1. unfold get_embedding at 1.
    destruct (titan_embedding w (tick s) question) as [qe|]; [|discriminate].
    unfold bind at 1.
    destruct (Query.similarity_search w qe top_k _) as [[hits|] s1] eqn:Hsearch;
      [|discriminate].
    unfold bind at 1. unfold Query.query_claude at 1.
    destruct (claude_text w (tick s1) _) as [answer|] eqn:Hanswer; [|discriminate].
    intros H. injection H as <- <-. right.
    exists question, answer, hits, (tick s1). repeat split; try assumption.
    + assert (Hq : quiet (fun _ => true) (Query.similarity_search w qe top_k))
        by (by apply quiet_similarity_search).
      destruct (Hq _ _ _ Hsearch) as (_ & t & Ht & _).
      unfold calls. simpl. rewrite Ht. simpl.
      rewrite !map_app. simpl. apply in_or_app. left.
      apply in_or_app. left. apply in_or_app. right. by left.
    + unfold calls. simpl. rewrite map_app. apply in_or_app. right. by left.
Qed.

(** C8.  A request body without [question] is answered with status 400 and
    the error payload, and the handler has made no call at all; whenever
    the [try] block raises, the handler returns status 500 with the text of
    the exception as error message; and the handler always returns a
    response: status 400 without any call, status 500 with an error
    message, or status 200 carrying the answer that the generation call
    returned. *)
Theorem query_failures_are_reported event d :
  (forall m,
     Query.request_body w event = Ok (JObj m) ->
     m !! "question" = None ->
     Query.query w event d = (Ok Query.missing_question, init_state d) /\
     calls (Query.query w event d).2 = []) /\
  (statusCode Query.missing_question = 400 /\
   body Query.missing_question
   = JObj (list_to_map [("error", JStr "Missing required field: question")])) /\
  (forall e s',
     Query.handle w event (init_state d) = (Raise e, s') ->
     Query.query w event d = (Ok (Query.failed e), s') /\
     statusCode (Query.failed e) = 500 /\
     body (Query.failed e) = JObj (list_to_map [("error", JStr (exn_msg e))])) /\
  (exists resp s',
     Query.query w event d = (Ok resp, s') /\
     ((statusCode resp = 400 /\ resp = Query.missing_question /\ calls s' = []) \/
      (statusCode resp = 500 /\ exists e, resp = Query.failed e) \/
      (statusCode resp = 200 /\
       exists question answer hits n,
         resp = Query.answered question answer hits /\
         claude_text w n (Query.build_prompt w question hits) = Ok answer /\
         In (Embed question) (calls s') /\
         In (Generate (Query.build_prompt w question hits)) (calls s')))).
Proof.
  repeat split.
  - unfold Query.query, Query.lambda_handler, try_except.
    rewrite (handle_body _ _ _ H), H0. reflexivity.
  - unfold Query.query, Query.lambda_handler, try_except.
    rewrite (handle_body _ _ _ H), H0. reflexivity.
  - unfold Query.query, Query.lambda_handler, try_except. by rewrite H.
  - unfold Query.query, Query.lambda_handler, try_except.
    destruct (Query.handle w event (init_state d)) as [[resp|e] s'] eqn:H.
    + exists resp, s'. split; [reflexivity|].
      destruct (handle_ok _ _ _ _ H) as [[-> ->] | Hans].
      * left. by repeat split.
      * right. right. destruct Hans as (question & answer & hits & n & -> & Hrest).
        split; [reflexivity|]. by exists question, answer, hits, n.
    + exists (Query.failed e), s'. split; [reflexivity|].
      right. left. split; [reflexivity|]. by exists e.
Qed.

(** C9.  A request body whose [question] is falsy (the empty string,
    [None], [False], zero, an empty list or dictionary) is answered like a
    body without [question]: status 400 with the same payload, and no call
    to any collaborator. *)
Theorem falsy_question_is_missing event d m question :
  Query.request_body w event = Ok (JObj m) ->
  m !! "question" = Some question ->
  truthy question = false ->
  Query.query w event d = (Ok Query.missing_question, init_state d) /\
  statusCode Query.missing_question = 400 /\
  calls (Query.query w event d).2 = [] /\
  (forall event' m',
     Query.request_body w event' = Ok (JObj m') -> m' !! "question" = None ->
     Query.query w event d = Query.query w event' d) /\
  truthy (JStr "") = false.
Proof.
  intros Hbody Hq Hfalsy.
  assert (H : Query.query w event d = (Ok Query.missing_question, init_state d)).
  { unfold Query.query, Query.lambda_handler, try_except.
    rewrite (handle_body _ _ _ Hbody), Hq. simpl. by rewrite Hfalsy. }
  split; [exact H|]. split; [reflexivity|]. split; [by rewrite H|].
  split; [|reflexivity].
  intros event' m' Hbody' Hq'. rewrite H.
  unfold Query.query, Query.lambda_handler, try_except.
  by rewrite (handle_body _ _ _ Hbody'), Hq'.
Qed.





End QueryClaims.

(** ** The query handler on concrete requests *)




(** Without embedding model the handler answers 500 with the model's
    message. *)
Lemma query_failures_are_reported_witness :
  (Query.query without_embeddings (ask (JInt 2)) library).1
  = Ok (Query.failed (Exn CollaboratorError "ModelUnavailable")).
Proof.
  destruct (query_failures_are_reported without_embeddings (ask (JInt 2)) library)
    as (_ & _ & Hfailed & _).
  destruct (Hfailed (Exn CollaboratorError "ModelUnavailable")
              (Query.handle without_embeddings (ask (JInt 2)) (init_state library)).2)
    as [Hrun _].
  - vm_compute. reflexivity.
  - rewrite Hrun. reflexivity.
Defined.

(** An empty question is a missing question. *)
Lemma falsy_question_is_missing_witness :
  Query.query demo_world (JObj (list_to_map [("question", JStr "")])) library
  = (Ok Query.missing_question, init_state library).
Proof.
  destruct (falsy_question_is_missing demo_world
              (JObj (list_to_map [("question", JStr "")])) library
              (list_to_map [("question", JStr "")]) (JStr "")) as [Hrun _].
  - vm_compute. reflexivity.
  - vm_compute. reflexivity.
  - reflexivity.
  - exact Hrun.
Defined.


(** ** The Chunker on a short text *)

Lemma str_app_cons (c : ascii) (s t : string) :
  String c s +:+ t = String c (s +:+ t).
Proof. reflexivity. Qed.

Lemma str_app_nil_l (s : string) : "" +:+ s = s.
Proof. reflexivity. Qed.

Lemma str_app_nil_r (s : string) : s +:+ "" = s.
Proof.
  induction s as [|c s IH]; [reflexivity|]. by rewrite str_app_cons, IH.
Qed.

Lemma str_app_assoc (s1 s2 s3 : string) : (s1 +:+ s2) +:+ s3 = s1 +:+ (s2 +:+ s3).
Proof.
  induction s1 as [|c s1 IH]; [reflexivity|]. by rewrite !str_app_cons, IH.
Qed.

Lemma str_length_app (s1 s2 : string) :
  String.length (s1 +:+ s2) = (String.length s1 + String.length s2)%nat.
Proof.
  induction s1 as [|c s1 IH]; [reflexivity|].
  rewrite str_app_cons. simpl. by rewrite IH.
Qed.

(** The concatenation of a list of strings, [''.join(l)]. *)
Lemma join_nil_cons (x : string) (l : list string) :
  join "" (x :: l) = x +:+ join "" l.
Proof.
  unfold join. destruct l as [|y l]; simpl; [by rewrite str_app_nil_r|reflexivity].
Qed.






Lemma prefix_split (sep text : string) :
  String.prefix sep text = true -> exists t, text = sep +:+ t.
Proof.
  revert text. induction sep as [|a sep IH]; intros text H.
  - by exists text.
  - destruct text as [|b text]; [discriminate|]. simpl in H.
    destruct (Ascii.ascii_dec a b) as [->|]; [|discriminate].
    destruct (IH _ H) as [t ->]. by exists t.
Qed.






Lemma len_app (s1 s2 : string) : len (s1 +:+ s2) = len s1 + len s2.
Proof. unfold len. rewrite str_length_app. apply Nat2Z.inj_add. Qed.


Lemma len_join_cons (x : string) (l : list string) :
  len (join "" (x :: l)) = len x + len (join "" l).
Proof. by rewrite join_nil_cons, len_app. Qed.

Section ShortText.
Context (chunk_size chunk_overlap : Z).







End ShortText.





(** A text of whitespace only has no chunk at all. *)
Example blank_text_has_no_chunk : chunk_text "     " = Ok [].
Proof. vm_compute. reflexivity. Qed.

(** * Further properties of the code *)

(** ** The text extractor: dispatch by suffix *)

Lemma lower_app (a b : string) : lower (a +:+ b) = lower a +:+ lower b.
Proof.
  induction a as [|c a IH]; [reflexivity|].
  rewrite str_app_cons. simpl. by rewrite IH.
Qed.

Lemma substring_all (s : string) : substring 0 (String.length s) s = s.
Proof. induction s as [|c s IH]; [reflexivity|]. simpl. by rewrite IH. Qed.

Lemma substring_skip (a b : string) (m : nat) :
  substring (String.length a) m (a +:+ b) = substring 0 m b.
Proof. induction a as [|c a IH]; [reflexivity|]. rewrite str_app_cons. exact IH. Qed.

Lemma endswith_app (a b : string) : endswith (a +:+ b) b = true.
Proof.
  unfold endswith. rewrite str_length_app.
  replace (String.length a + String.length b - String.length b)%nat
    with (String.length a) by lia.
  rewrite substring_skip, substring_all, String.eqb_refl.
  apply andb_true_intro. split; [|reflexivity]. apply Nat.leb_le. lia.
Qed.

Lemma substring_split (s : string) :
  forall k, (k <= String.length s)%nat ->
    s = substring 0 k s +:+ substring k (String.length s - k) s.
Proof.
  induction s as [|c s IH]; intros k Hk.
  - simpl in Hk. by replace k with 0%nat by lia.
  - destruct k as [|k].
    + simpl. by rewrite substring_all.
    + simpl in Hk. simpl. rewrite str_app_cons. f_equal. apply IH. lia.
Qed.

Lemma endswith_split (s suffix : string) :
  endswith s suffix = true -> exists stem, s = stem +:+ suffix.
Proof.
  unfold endswith. intros H. apply andb_prop in H. destruct H as [Hle Heq].
  apply Nat.leb_le in Hle. apply String.eqb_eq in Heq.
  exists (substring 0 (String.length s - String.length suffix) s).
  pose proof (substring_split s (String.length s - String.length suffix)) as Hsplit.
  replace (String.length s - (String.length s - String.length suffix))%nat
    with (String.length suffix) in Hsplit by lia.
  rewrite Heq in Hsplit. apply Hsplit. lia.
Qed.

Lemma last_char_app (a b : string) :
  b <> "" -> last_char (a +:+ b) = last_char b.
Proof.
  intros Hb. induction a as [|c a IH]; [reflexivity|].
  rewrite str_app_cons. simpl. rewrite IH.
  destruct (a +:+ b) eqn:E; [|reflexivity].
  destruct a; [by subst|discriminate].
Qed.

(** Two suffixes that end in different characters exclude each other. *)
Lemma endswith_exclusive (stem suffix other : string) :
  suffix <> "" -> other <> "" -> last_char suffix <> last_char other ->
  endswith (stem +:+ suffix) other = false.
Proof.
  intros Hs Ho Hlast. destruct (endswith (stem +:+ suffix) other) eqn:E; [|reflexivity].
  destruct (endswith_split _ _ E) as [stem' Heq].
  apply (f_equal last_char) in Heq. rewrite !last_char_app in Heq by assumption.
  congruence.
Qed.

Section Dispatch.
Context (w : world).

(** X1.  [extract_text] looks only at the end of the lower-cased file name:
    a name ending in [.pdf], [.docx] or [.txt] in any mix of cases goes to
    the PDF reader, the DOCX reader or the UTF-8 decoder, whatever the bytes
    are; and a name is accepted exactly when its lower-cased form ends in one
    of the three. *)
Theorem extract_text_dispatches_on_suffix file_obj stem ext :
  (lower ext = ".pdf" ->
   Processor.extract_text w file_obj (stem +:+ ext) = Processor.extract_pdf w file_obj) /\
  (lower ext = ".docx" ->
   Processor.extract_text w file_obj (stem +:+ ext) = Processor.extract_docx w file_obj) /\
  (lower ext = ".txt" ->
   Processor.extract_text w file_obj (stem +:+ ext) = utf8_decode w file_obj) /\
  (supported (stem +:+ ext) = true <->
   exists stem' ext', In ext' [".pdf"; ".docx"; ".txt"] /\
                      lower (stem +:+ ext) = stem' +:+ ext').
Proof.
  unfold Processor.extract_text, supported. rewrite lower_app.
  split; [|split; [|split]].
  - intros ->. by rewrite endswith_app.
  - intros ->. rewrite endswith_app.
    by rewrite (endswith_exclusive _ ".docx" ".pdf").
  - intros ->. rewrite endswith_app.
    rewrite (endswith_exclusive _ ".txt" ".pdf") by done.
    by rewrite (endswith_exclusive _ ".txt" ".docx").
  - split.
    + intros H. apply orb_prop in H. destruct H as [H|H]; [apply orb_prop in H; destruct H as [H|H]|];
        destruct (endswith_split _ _ H) as [stem' Heq]; exists stem'; eexists;
        (split; [|exact Heq]); simpl; auto.
    + intros (stem' & ext' & Hin & ->).
      destruct Hin as [<-|[<-|[<-|[]]]]; rewrite endswith_app;
        by rewrite ?orb_true_r.
Qed.

End Dispatch.


(** [Report.PDF] goes to the PDF reader. *)
Lemma extract_text_dispatches_on_suffix_witness :
  Processor.extract_text demo_world [] "Report.PDF"
  = Processor.extract_pdf demo_world [].
Proof.
  destruct (extract_text_dispatches_on_suffix demo_world [] "Report" ".PDF")
    as (Hpdf & _).
  apply Hpdf. reflexivity.
Defined.

(** ** The text extractor: pages and paragraphs *)

Lemma concat_pages_ok (texts : list string) :
  forall text,
    Processor.concat_pages (map Ok texts) text
    = Ok (text +:+ join "" (map (fun t => t +:+ nl) texts)).
Proof.
  induction texts as [|t texts IH]; intros text.
  - simpl. by rewrite str_app_nil_r.
  - simpl map. cbn [Processor.concat_pages]. rewrite IH, join_nil_cons.
    by rewrite !str_app_assoc.
Qed.

Lemma concat_pages_raise (texts : list string) e rest :
  forall text,
    Processor.concat_pages (map Ok texts ++ Raise e :: rest) text = Raise e.
Proof.
  induction texts as [|t texts IH]; intros text; [reflexivity|].
  simpl. apply IH.
Qed.

Lemma pages_ok_or_raise (pages : list (result string)) :
  (exists texts, pages = map Ok texts) \/
  (exists texts e rest, pages = map Ok texts ++ Raise e :: rest).
Proof.
  induction pages as [|[t|e] pages IH].
  - left. by exists [].
  - destruct IH as [[texts ->]|(texts & e & rest & ->)].
    + left. by exists (t :: texts).
    + right. by exists (t :: texts), e, rest.
  - right. by exists [], e, pages.
Qed.

Lemma len_join_lines (texts : list string) :
  len (join "" (map (fun t => t +:+ nl) texts))
  = len (join "" texts) + Z.of_nat (length texts).
Proof.
  induction texts as [|t texts IH]; [reflexivity|].
  simpl map. rewrite !len_join_cons, IH, len_app.
  change (len nl) with 1. rewrite length_cons. lia.
Qed.

Section Extraction.
Context (w : world).

(** X2.  [extract_pdf] returns the text of every page, in page order, each
    followed by one newline, empty pages included, so the text is as long as
    the pages together plus one character per page; it succeeds exactly when
    every page can be read, and otherwise raises what the first unreadable
    page raised. *)
Theorem extract_pdf_keeps_every_page file_obj pages :
  pdf_pages w file_obj = Ok pages ->
  (forall texts, pages = map Ok texts ->
     Processor.extract_pdf w file_obj
       = Ok (join "" (map (fun t => t +:+ nl) texts)) /\
     (forall text, Processor.extract_pdf w file_obj = Ok text ->
        len text = len (join "" texts) + Z.of_nat (length texts))) /\
  (forall texts e rest, pages = map Ok texts ++ Raise e :: rest ->
     Processor.extract_pdf w file_obj = Raise e) /\
  ((exists text, Processor.extract_pdf w file_obj = Ok text) <->
   (exists texts, pages = map Ok texts)).
Proof.
  intros Hpages. unfold Processor.extract_pdf. rewrite Hpages.
  split; [|split].
  - intros texts ->. rewrite concat_pages_ok. split; [reflexivity|].
    intros text [= <-]. change ("" +:+ ?x) with x. apply len_join_lines.
  - intros texts e rest ->. by apply concat_pages_raise.
  - split.
    + intros [text Htext].
      destruct (pages_ok_or_raise pages) as [Hok|(texts & e & rest & ->)]; [exact Hok|].
      rewrite concat_pages_raise in Htext. discriminate.
    + intros [texts ->]. rewrite concat_pages_ok. eauto.
Qed.

Lemma fold_paragraphs (paragraphs : list string) :
  forall text,
    fold_left (fun text paragraph => text +:+ paragraph +:+ nl) paragraphs text
    = text +:+ join "" (map (fun t => t +:+ nl) paragraphs).
Proof.
  induction paragraphs as [|p paragraphs IH]; intros text.
  - simpl. by rewrite str_app_nil_r.
  - simpl fold_left. simpl map. rewrite IH, join_nil_cons.
    by rewrite !str_app_assoc.
Qed.

(** X3.  [extract_docx] returns the text of every paragraph, in document
    order, each followed by one newline, empty paragraphs included, so the
    text is as long as the paragraphs together plus one character per
    paragraph; it raises what the reader raises. *)
Theorem extract_docx_keeps_every_paragraph file_obj :
  (forall paragraphs, docx_paragraphs w file_obj = Ok paragraphs ->
     Processor.extract_docx w file_obj
       = Ok (join "" (map (fun t => t +:+ nl) paragraphs)) /\
     (forall text, Processor.extract_docx w file_obj = Ok text ->
        len text = len (join "" paragraphs) + Z.of_nat (length paragraphs))) /\
  (forall e, docx_paragraphs w file_obj = Raise e ->
     Processor.extract_docx w file_obj = Raise e).
Proof.
  unfold Processor.extract_docx. split.
  - intros paragraphs ->. rewrite fold_paragraphs. split; [reflexivity|].
    intros text [= <-]. change ("" +:+ ?x) with x. apply len_join_lines.
  - by intros e ->.
Qed.

End Extraction.


(** Three pages, the second one empty. *)
Lemma extract_pdf_keeps_every_page_witness :
  Processor.extract_pdf paged_world []
  = Ok (join "" (map (fun t => t +:+ nl) ["first page"; ""; "third page"])).
Proof.
  destruct (extract_pdf_keeps_every_page paged_world []
              [Ok "first page"; Ok ""; Ok "third page"]) as (Hok & _).
  - reflexivity.
  - destruct (Hok ["first page"; ""; "third page"]) as [Htext _]; [reflexivity|].
    exact Htext.
Defined.

(** Three paragraphs, the second one empty. *)
Lemma extract_docx_keeps_every_paragraph_witness :
  Processor.extract_docx paged_world []
  = Ok (join "" (map (fun t => t +:+ nl) ["first paragraph"; ""; "third paragraph"])).
Proof.
  destruct (extract_docx_keeps_every_paragraph paged_world []) as (Hok & _).
  destruct (Hok ["first paragraph"; ""; "third paragraph"]) as [Htext _];
    [reflexivity|].
  exact Htext.
Defined.

(** ** The processor and the other documents *)

Section OtherKeys.
Context (w : world).

(** X4.  An invocation of the processor for one key, whatever its outcome,
    leaves the chunk rows and the metadata row of every other key as they
    were. *)
Theorem ingestion_touches_one_document event record rest d r s' key :
  Records event = record :: rest ->
  Processor.ingest w event d = (r, s') ->
  key <> object_key record ->
  document (committed s') key = document d key.
Proof.
  intros Hrec H Hkey. destruct r as [resp|e].
  - destruct (ingest_ok w _ _ _ _ H) as (record' & rest' & Hrec' & Hcases).
    rewrite Hrec in Hrec'. injection Hrec' as <- <-.
    destruct Hcases as [(_ & -> & _) | Hnew]; [reflexivity|].
    destruct Hnew as (fb & fo & text & chunks & new & now & _ & _ & _ & _ & _
                      & Hall & ->).
    unfold document. cbn [processed_files].
    rewrite lookup_insert_ne by congruence.
    rewrite chunks_of_untouched; [reflexivity|assumption|by eapply Forall_filename].
  - by rewrite (ingest_raise_keeps _ _ _ _ _ H).
Qed.

End OtherKeys.



(** An upload of [notes.txt] leaves [doc1] alone. *)
Lemma ingestion_touches_one_document_witness :
  document (committed (Processor.ingest demo_world (upload "notes.txt") library).2)
    "doc1"
  = document library "doc1".
Proof.
  apply (ingestion_touches_one_document demo_world (upload "notes.txt")
           (S3Record "docs" "notes.txt") [] library
           (Processor.ingest demo_world (upload "notes.txt") library).1).
  - reflexivity.
  - vm_compute. reflexivity.
  - discriminate.
Defined.

(** ** What a 200 answer stands for *)

Section Answered.
Context (w : world).

Lemma handle_needs_dictionary event s resp s' :
  Query.handle w event s = (Ok resp, s') ->
  exists m, Query.request_body w event = Ok (JObj m).
Proof.
  unfold Query.handle. unfold bind at 1. unfold lift at 1.
  destruct (Query.request_body w event) as [body|]; [|discriminate].
  unfold bind at 1. unfold lift at 1.
  destruct body; try discriminate. eauto.
Qed.

Lemma handle_answered event s resp s' :
  Query.handle w event s = (Ok resp, s') ->
  statusCode resp = 200 ->
  exists m question query_embedding hits answer,
    Query.request_body w event = Ok (JObj m) /\
    m !! "question" = Some question /\
    truthy question = true /\
    titan_embedding w (tick s) question = Ok query_embedding /\
    Query.nearest w query_embedding (requested_top_k m) (embeddings (committed s))
      = Ok hits /\
    claude_text w (tick s + 5) (Query.build_prompt w question hits) = Ok answer /\
    resp = Query.answered question answer hits /\
    committed s' = committed s /\
    session s' = None /\
    calls s' = calls s ++
      [Embed question; DbConnect;
       DbNearest query_embedding (requested_top_k m);
       DbCursorClose; DbClose;
       Generate (Query.build_prompt w question hits)].
Proof.
  intros H Hstatus.
  destruct (handle_needs_dictionary _ _ _ _ H) as [m Hbody].
  rewrite (handle_body w _ _ _ Hbody) in H. cbv zeta in H.
  exists m.
  destruct (m !! "question") as [question|] eqn:Hq.
  - destruct (truthy question) eqn:Htruthy; simpl in H.
    + revert H. unfold bind at 1. unfold get_embedding at 1.
      destruct (titan_embedding w (tick s) question) as [qe|] eqn:Hqe; [|discriminate].
      unfold bind at 1. unfold Query.similarity_search, bind, get_db_connection,
        Query.select_nearest, cursor_close, conn_close, ret.
      destruct (pg_fault w _); [discriminate|]. simpl.
      destruct (pg_fault w _); [discriminate|].
      destruct (Query.nearest w qe (requested_top_k m) _) as [hits|] eqn:Hhits;
        [|discriminate].
      simpl. unfold Query.query_claude.
      destruct (claude_text w _ _) as [answer|] eqn:Hanswer; [|discriminate].
      intros [= <- <-].
      exists question, qe, hits, answer.
      destruct s as [c0 se tr]. simpl in *.
      repeat split; try assumption; try reflexivity.
      * rewrite <- Hanswer. f_equal. unfold tick. simpl.
        rewrite !length_app. simpl. lia.
      * unfold calls. simpl. rewrite !map_app. simpl.
        by rewrite <- !app_assoc.
    + injection H as <- _. discriminate Hstatus.
  - simpl in H. injection H as <- _. discriminate Hstatus.
Qed.


End Answered.

(** ** The query handler reads only *)

Section QueryReads.
Context (w : world).

Lemma quiet_try_except {A} (Q : call -> bool) (m : M A) (h : exn -> M A) :
  quiet Q m -> (forall e, quiet Q (h e)) -> quiet Q (try_except m h).
Proof.
  intros Hm Hh s r s' H. unfold try_except in H.
  destruct (m s) as [[a|e] s1] eqn:E.
  - inversion H; subst. exact (Hm _ _ _ E).
  - destruct (Hm _ _ _ E) as (Hc & t & Ht & Hall).
    destruct (Hh e _ _ _ H) as (Hc' & t' & Ht' & Hall').
    split; [congruence|]. exists (t ++ t'). split.
    + rewrite Ht', Ht. by rewrite app_assoc.
    + apply Forall_app. split; [assumption|]. by rewrite Hc in Hall'.
Qed.

Lemma query_handler_quiet event :
  quiet (fun c => negb (is_write c) && negb (is_extract c))
    (Query.lambda_handler w event).
Proof.
  unfold Query.lambda_handler. apply quiet_try_except; [|intros e; apply quiet_ret].
  unfold Query.handle.
  apply quiet_bind; [apply quiet_lift|]. intros body.
  apply quiet_bind; [apply quiet_lift|]. intros question.
  apply quiet_bind; [apply quiet_lift|]. intros top_k.
  destruct (negb (truthy question)); [apply quiet_ret|].
  apply quiet_bind; [by apply quiet_get_embedding|]. intros query_embedding.
  apply quiet_bind; [by apply quiet_similarity_search|]. intros context_chunks.
  apply quiet_bind; [by apply quiet_query_claude|]. intros answer.
  apply quiet_ret.
Qed.

(** X6.  The query handler always returns a response, never writes to the
    store and never extracts text: the committed contents are the same after
    as before, in every snapshot; and when it answers with status 200 its
    connection is closed. *)
Theorem query_never_writes event d :
  exists resp s',
    Query.query w event d = (Ok resp, s') /\
    committed s' = d /\
    Forall (fun snapshot => snapshot = d) (snapshots s') /\
    Forall (fun c => is_write c = false /\ is_extract c = false) (calls s') /\
    (statusCode resp = 200 -> session s' = None).
Proof.
  destruct (Query.query w event d) as [r s'] eqn:H.
  destruct (query_handler_quiet event _ _ _ H) as (Hc & t & Ht & Hall).
  simpl in Hc, Ht.
  assert (Hr : exists resp, r = Ok resp).
  { revert H. unfold Query.query, Query.lambda_handler, try_except.
    destruct (Query.handle w event (init_state d)) as [[resp|e] s1];
      intros [= <- _]; eauto. }
  destruct Hr as [resp ->]. exists resp, s'. split; [reflexivity|].
  split; [exact Hc|]. split; [|split].
  - unfold snapshots. rewrite Ht. apply Forall_map.
    eapply Forall_impl; [exact Hall|]. by intros cd [_ ?].
  - unfold calls. rewrite Ht. apply Forall_map.
    eapply Forall_impl; [exact Hall|]. intros cd [HQ _].
    apply andb_prop in HQ. destruct HQ as [H1 H2].
    split; by apply negb_true_iff.
  - intros Hstatus. revert H.
    unfold Query.query, Query.lambda_handler, try_except.
    destruct (Query.handle w event (init_state d)) as [[resp'|e] s1] eqn:Hh.
    + intros [= -> ->].
      by destruct (handle_answered w _ _ _ _ Hh Hstatus)
        as (? & ? & ? & ? & ? & _ & _ & _ & _ & _ & _ & _ & _ & ? & _).
    + intros [= <- _]. discriminate Hstatus.
Qed.

End QueryReads.



(** The same question leaves the three chunks as they were. *)
Lemma query_never_writes_witness :
  committed (Query.query demo_world (ask (JInt 2)) library).2 = library.
Proof.
  destruct (query_never_writes demo_world (ask (JInt 2)) library)
    as (resp & s' & Hrun & Hcommitted & _).
  rewrite Hrun. exact Hcommitted.
Defined.

(** ** The calls of an invocation of the processor that returns *)

Lemma calls_record_call (c : call) (s : state) :
  calls (record_call c s) = calls s ++ [c].
Proof. unfold calls, record_call. simpl. by rewrite map_app. Qed.

Lemma tick_calls (s : state) : tick s = length (calls s).
Proof. unfold tick, calls. by rewrite length_map. Qed.

Section Runs.
Context (w : world).

Lemma embed_chunks_run key file_hash chunks :
  forall i embeddings_data s data s',
    Processor.embed_chunks w key file_hash i chunks embeddings_data s = (Ok data, s') ->
    committed s' = committed s /\ session s' = session s /\
    calls s' = calls s ++ map (fun chunk => Embed (JStr chunk)) chunks /\
    exists new, data = embeddings_data ++ new /\
      map col_chunk_text new = chunks /\
      map col_chunk_index new = seqZ i (Z.of_nat (length chunks)) /\
      Forall (fun r => col_filename r = key /\ col_file_hash r = file_hash) new /\
      (forall (j : nat) row, new !! j = Some row ->
         titan_embedding w (tick s + j) (JStr (col_chunk_text row))
         = Ok (col_embedding row)).
Proof.
  induction chunks as [|chunk rest IH]; intros i embeddings_data s data s' H.
  - inversion H; subst. rewrite app_nil_r. repeat split.
    exists []. rewrite app_nil_r. repeat split; try constructor.
    intros j row Hj. discriminate Hj.
  - simpl in H. unfold bind in H at 1. unfold get_embedding in H.
    destruct (titan_embedding w (tick s) (JStr chunk)) as [embedding|e] eqn:He;
      [|discriminate].
    apply IH in H. destruct H as (Hc & Hs & Hcalls & new & Hdata & Htext & Hidx & Hall & Hemb).
    rewrite calls_record_call in Hcalls.
    assert (Htick : tick (record_call (Embed (JStr chunk)) s) = S (tick s)).
    { rewrite !tick_calls, calls_record_call, length_app. simpl. lia. }
    destruct s as [c0 se tr]. simpl in Hc, Hs.
    split; [exact Hc|]. split; [exact Hs|]. split.
    { rewrite Hcalls. simpl. by rewrite <- app_assoc. }
    exists (ChunkRow chunk embedding key i file_hash :: new).
    rewrite Hdata, <- app_assoc. simpl. repeat split.
    + by rewrite Htext.
    + rewrite Hidx.
      replace (Z.of_nat (S (length rest))) with (Z.succ (Z.of_nat (length rest))) by lia.
      rewrite (seqZ_cons i) by lia. f_equal. f_equal; lia.
    + constructor; auto.
    + intros [|j] row Hj.
      * injection Hj as <-. simpl. rewrite Nat.add_0_r. exact He.
      * simpl in Hj. rewrite <- (Hemb j row Hj). f_equal. rewrite Htick. lia.
Qed.

Lemma insert_pages_run pages :
  forall s d0 s',
    insert_pages w pages s = (Ok tt, s') -> session s = Some d0 ->
    committed s' = committed s /\
    session s' = Some (Db (embeddings d0 ++ concat pages) (processed_files d0)) /\
    calls s' = calls s ++ map DbInsertPage pages.
Proof.
  induction pages as [|page rest IH]; intros s d0 s' H Hs.
  - inversion H; subst. split; [reflexivity|]. simpl. rewrite !app_nil_r.
    split; [by destruct d0|reflexivity].
  - simpl in H. unfold bind in H at 1. unfold insert_page, db_statement in H.
    rewrite Hs in H. destruct (pg_fault w (tick s)); [discriminate|]. simpl in H.
    eapply IH in H; [|reflexivity]. simpl in H. destruct H as (Hc & Hs' & Hcalls).
    split; [assumption|]. split.
    + rewrite Hs'. simpl. by rewrite <- app_assoc.
    + rewrite Hcalls. unfold calls. simpl. rewrite map_app. simpl.
      by rewrite <- app_assoc.
Qed.

(** What the handler has done when it returns, in full. *)
Lemma ingest_returns event record rest d resp s' :
  Records event = record :: rest ->
  Processor.ingest w event d = (Ok resp, s') ->
  exists file_bytes,
    s3_body w 1 (bucket_name record) (object_key record) = Ok file_bytes /\
    ((resp = Processor.already_processed /\
      pf_file_hash <$> processed_files d !! object_key record
        = Some (md5_hexdigest w file_bytes) /\
      committed s' = d) \/
     (pf_file_hash <$> processed_files d !! object_key record
        <> Some (md5_hexdigest w file_bytes) /\
      exists file_obj text chunks new now,
        s3_body w 4 (bucket_name record) (object_key record) = Ok file_obj /\
        Processor.extract_text w file_obj (object_key record) = Ok text /\
        chunk_text text = Ok chunks /\
        resp = Processor.processed (object_key record) chunks /\
        map col_chunk_text new = chunks /\
        map col_chunk_index new = seqZ 0 (Z.of_nat (length chunks)) /\
        Forall (fun r => col_filename r = object_key record /\
                         col_file_hash r = md5_hexdigest w file_bytes) new /\
        (forall (j : nat) row, new !! j = Some row ->
           titan_embedding w (6 + j) (JStr (col_chunk_text row))
           = Ok (col_embedding row)) /\
        committed s' =
          Db (filter (fun r => col_filename r ≠ object_key record) (embeddings d) ++ new)
             (<[object_key record :=
                  FileRow (md5_hexdigest w file_bytes) (Z.of_nat (length chunks)) now]>
                (processed_files d)) /\
        session s' = None /\
        calls s' =
          [S3GetObject (bucket_name record) (object_key record);
           S3GetObject (bucket_name record) (object_key record);
           DbConnect; DbSelectHash (object_key record);
           S3GetObject (bucket_name record) (object_key record);
           ExtractText (object_key record)]
          ++ map (fun chunk => Embed (JStr chunk)) chunks
          ++ [DbDelete (object_key record)]
          ++ map DbInsertPage (paginate 100 100 [] new)
          ++ [DbUpsert (object_key record) (md5_hexdigest w file_bytes)
                (Z.of_nat (length chunks));
              DbCommit; DbCursorClose; DbClose])).
Proof.
  intros Hrec. unfold Processor.ingest, Processor.lambda_handler. rewrite Hrec.
  unfold bind at 1, lift. intros H.
  unfold bind at 1 in H. unfold s3_get_object at 1 in H.
  destruct (s3_body w _ _ _) as [b0|]; [|discriminate].
  unfold bind at 1 in H. unfold s3_get_object at 1 in H.
  destruct (s3_body w _ _ _) as [file_bytes|] eqn:Hbytes; [|discriminate].
  exists file_bytes. split; [reflexivity|].
  unfold bind at 1 in H. unfold get_db_connection at 1 in H.
  destruct (pg_fault w _); [discriminate|].
  unfold bind at 1 in H. unfold select_file_hash, db_statement at 1 in H.
  simpl session in H. cbv iota in H.
  destruct (pg_fault w _); [discriminate|].
  cbv beta iota zeta in H.
  set (key := object_key record) in *. set (bucket := bucket_name record) in *.
  match type of H with
  | _ ?st = _ => remember st as s4 eqn:E4;
                 assert (Hs4 : committed s4 = d /\ session s4 = Some d /\
                               calls s4 = [S3GetObject bucket key; S3GetObject bucket key;
                                           DbConnect; DbSelectHash key])
                   by (subst s4; repeat split; reflexivity);
                 clear E4
  end.
  destruct Hs4 as (Hc4 & Hse4 & Hcalls4).
  assert (Hnew :
    pf_file_hash <$> processed_files d !! key <> Some (md5_hexdigest w file_bytes) ->
    (file_obj <- s3_get_object w bucket key;;
     text <- Processor.extract_text_call w file_obj key;;
     chunks <- lift (chunk_text text);;
     embeddings_data <-
       Processor.embed_chunks w key (md5_hexdigest w file_bytes) 0 chunks [];;
     delete_embeddings w key;;;
     execute_values w embeddings_data;;;
     upsert_processed_file w key (md5_hexdigest w file_bytes)
       (Z.of_nat (length chunks));;;
     db_commit w;;;
     cursor_close;;;
     conn_close;;; ret (Processor.processed key chunks)) s4 = (Ok resp, s') ->
    resp = Processor.already_processed /\
    pf_file_hash <$> processed_files d !! key = Some (md5_hexdigest w file_bytes) /\
    committed s' = d \/
    pf_file_hash <$> processed_files d !! key <> Some (md5_hexdigest w file_bytes) /\
    (exists file_obj text chunks new now,
       s3_body w 4 bucket key = Ok file_obj /\
       Processor.extract_text w file_obj key = Ok text /\
       chunk_text text = Ok chunks /\
       resp = Processor.processed key chunks /\
       map col_chunk_text new = chunks /\
       map col_chunk_index new = seqZ 0 (Z.of_nat (length chunks)) /\
       Forall (fun r => col_filename r = key /\
                        col_file_hash r = md5_hexdigest w file_bytes) new /\
       (forall (j : nat) row, new !! j = Some row ->
          titan_embedding w (6 + j) (JStr (col_chunk_text row))
          = Ok (col_embedding row)) /\
       committed s' =
         Db (filter (fun r => col_filename r ≠ key) (embeddings d) ++ new)
            (<[key := FileRow (md5_hexdigest w file_bytes)
                        (Z.of_nat (length chunks)) now]> (processed_files d)) /\
       session s' = None /\
       calls s' =
         [S3GetObject bucket key; S3GetObject bucket key; DbConnect; DbSelectHash key;
          S3GetObject bucket key; ExtractText key]
         ++ map (fun chunk => Embed (JStr chunk)) chunks
         ++ [DbDelete key]
         ++ map DbInsertPage (paginate 100 100 [] new)
         ++ [DbUpsert key (md5_hexdigest w file_bytes) (Z.of_nat (length chunks));
             DbCommit; DbCursorClose; DbClose])).
  { clear H. intros Hdiff H. right. split; [exact Hdiff|].
    unfold bind at 1 in H. unfold s3_get_object at 1 in H.
    assert (Ht4 : tick s4 = 4%nat) by (by rewrite tick_calls, Hcalls4).
    rewrite Ht4 in H.
    destruct (s3_body w 4 bucket key) as [file_obj|] eqn:Hobj; [|discriminate].
    unfold bind at 1 in H. unfold Processor.extract_text_call at 1 in H.
    destruct (Processor.extract_text w file_obj key) as [text|] eqn:Htext; [|discriminate].
    unfold bind at 1 in H. unfold lift at 1 in H.
    destruct (chunk_text text) as [chunks|] eqn:Hchunks; [|discriminate].
    unfold bind at 1 in H.
    match type of H with
    | context [Processor.embed_chunks _ _ _ _ _ _ ?st] =>
        destruct (Processor.embed_chunks w key (md5_hexdigest w file_bytes)
                    0 chunks [] st) as [[data|] s5] eqn:Hembed; [|discriminate];
        apply embed_chunks_run in Hembed;
        destruct Hembed as (Hc5 & Hse5 & Hcalls5 & new & Hdata & Hnt & Hni & Hnall & Hemb)
    end.
    rewrite !calls_record_call, Hcalls4 in Hcalls5.
    rewrite !tick_calls, !calls_record_call, Hcalls4 in Hemb.
    simpl in Hc5, Hse5, Hcalls5, Hemb.
    rewrite Hc4 in Hc5. rewrite Hse4 in Hse5. simpl in Hdata. subst data.
    unfold bind at 1 in H. unfold delete_embeddings, db_statement at 1 in H.
    rewrite Hse5 in H. destruct (pg_fault w (tick s5)); [discriminate|].
    cbv beta iota zeta in H.
    unfold bind at 1 in H.
    match type of H with
    | context [execute_values w new ?st] =>
        destruct (execute_values w new st) as [[[]|] s6] eqn:Hins; [|discriminate];
        unfold execute_values in Hins;
        eapply insert_pages_run in Hins; [|reflexivity];
        destruct Hins as (Hc6 & Hse6 & Hcalls6)
    end.
    rewrite calls_record_call in Hcalls6. simpl in Hc6, Hse6, Hcalls6.
    rewrite paginate_concat in Hse6. simpl in Hse6.
    unfold bind at 1 in H. unfold upsert_processed_file, db_statement at 1 in H.
    rewrite Hse6 in H. destruct (pg_fault w (tick s6)); [discriminate|].
    cbv beta iota zeta in H.
    unfold bind at 1 in H. unfold db_commit at 1 in H. simpl session in H.
    cbv iota in H.
    destruct (pg_fault w _); [discriminate|].
    injection H as Hresp Hs'. subst resp s'.
    exists file_obj, text, chunks, new. eexists.
    split; [reflexivity|]. split; [exact Htext|]. split; [exact Hchunks|].
    split; [reflexivity|]. split; [exact Hnt|]. split; [exact Hni|].
    split; [exact Hnall|]. split; [exact Hemb|].
    split; [reflexivity|]. split; [reflexivity|].
    unfold calls at 1. simpl. rewrite !map_app. simpl.
    change (map fst (trace s6)) with (calls s6).
    rewrite Hcalls6. unfold calls in *. simpl. rewrite Hcalls5. simpl.
    rewrite <- !app_assoc. reflexivity. }
  destruct (processed_files d !! key) as [row|] eqn:Hrow; simpl in H.
  - destruct (String.eqb_spec (pf_file_hash row) (md5_hexdigest w file_bytes)) as [Heq|Hne].
    + left. injection H as <- <-. split; [reflexivity|].
      split; [simpl; by rewrite Heq|]. simpl. exact Hc4.
    + apply Hnew; [|exact H]. simpl. congruence.
  - apply Hnew; [|exact H]. discriminate.
Qed.

End Runs.

(** ** Replacing a document, uploading it again, finding it *)

Section Replacement.
Context (w : world).




(** X8.  When the text of the file gives no chunk, a run that processes it
    deletes the chunk rows of the key and records a chunk count of 0, with
    no embedding call and no insert statement at all. *)
Theorem empty_document_clears_its_chunks event record rest d resp s' :
  Records event = record :: rest ->
  (forall n file_obj text,
     s3_body w n (bucket_name record) (object_key record) = Ok file_obj ->
     Processor.extract_text w file_obj (object_key record) = Ok text ->
     chunk_text text = Ok []) ->
  Processor.ingest w event d = (Ok resp, s') ->
  resp <> Processor.already_processed ->
  exists file_hash now,
    resp = Processor.processed (object_key record) [] /\
    document (committed s') (object_key record) = ([], Some (FileRow file_hash 0 now)) /\
    calls s' = [S3GetObject (bucket_name record) (object_key record);
                S3GetObject (bucket_name record) (object_key record);
                DbConnect; DbSelectHash (object_key record);
                S3GetObject (bucket_name record) (object_key record);
                ExtractText (object_key record);
                DbDelete (object_key record);
                DbUpsert (object_key record) file_hash 0;
                DbCommit; DbCursorClose; DbClose].
Proof.
  intros Hrec Hblank H Hresp.
  destruct (ingest_returns w _ _ _ _ _ _ Hrec H) as (file_bytes & _ & Hcases).
  destruct Hcases as [(-> & _) | (_ & Hnew)]; [congruence|].
  destruct Hnew as (fo & text & chunks & new & now & Hfo & Htext & Hchunks & -> & Hnt & _
                    & Hall & _ & -> & _ & Hcalls).
  rewrite (Hblank _ _ _ Hfo Htext) in Hchunks. injection Hchunks as <-.
  destruct new; [|discriminate].
  exists (md5_hexdigest w file_bytes), now. split; [reflexivity|]. split.
  - unfold document. rewrite chunks_of_replaced by constructor.
    cbn [processed_files]. by rewrite lookup_insert_eq.
  - exact Hcalls.
Qed.

Lemma short_circuit_run bucket key rest d bytes row :
  (forall n, s3_body w n bucket key = Ok bytes) ->
  (forall n, pg_fault w n = None) ->
  processed_files d !! key = Some row ->
  pf_file_hash row = md5_hexdigest w bytes ->
  Processor.ingest w (S3Event (S3Record bucket key :: rest)) d
  = (Ok Processor.already_processed,
     State d None
       [(S3GetObject bucket key, d); (S3GetObject bucket key, d); (DbConnect, d);
        (DbSelectHash key, d); (DbCursorClose, d); (DbClose, d)]).
Proof.
  intros Hs3 Hpg Hrow Hhash.
  unfold Processor.ingest, Processor.lambda_handler.
  unfold bind, lift, s3_get_object, get_db_connection, select_file_hash, db_statement.
  simpl. rewrite !Hs3, !Hpg. simpl.
  rewrite Hrow. simpl. by rewrite Hhash, String.eqb_refl.
Qed.

(** X9.  When the object store keeps serving the same bytes and the
    database answers, an invocation that returned is followed by one that
    reports the file as already processed: the second one leaves the
    committed contents as the first left them, and makes no write, no
    embedding call and no extraction. *)
Theorem second_upload_changes_nothing event record rest d bytes resp s' :
  Records event = record :: rest ->
  (forall n, s3_body w n (bucket_name record) (object_key record) = Ok bytes) ->
  (forall n, pg_fault w n = None) ->
  Processor.ingest w event d = (Ok resp, s') ->
  exists s'',
    Processor.ingest w event (committed s') = (Ok Processor.already_processed, s'') /\
    committed s'' = committed s' /\
    Forall (fun c => is_write c = false /\ is_embed c = false /\ is_extract c = false)
      (calls s'').
Proof.
  intros Hrec Hs3 Hpg H.
  destruct (ingest_returns w _ _ _ _ _ _ Hrec H) as (file_bytes & Hbytes & Hcases).
  rewrite Hs3 in Hbytes. injection Hbytes as <-.
  assert (Hstored : exists row,
            processed_files (committed s') !! object_key record = Some row /\
            pf_file_hash row = md5_hexdigest w bytes).
  { destruct Hcases as [(_ & Hhash & ->) | (_ & Hnew)].
    - destruct (processed_files d !! object_key record) as [row|]; [|discriminate].
      exists row. split; [reflexivity|]. by injection Hhash.
    - destruct Hnew as (fo & text & chunks & new & now & _ & _ & _ & _ & _ & _ & _
                        & _ & -> & _).
      eexists. cbn [processed_files]. rewrite lookup_insert_eq. by split. }
  destruct Hstored as (row & Hrow & Hhash).
  destruct event as [records]. simpl in Hrec. subst records.
  destruct record as [bucket key]. simpl in *.
  eexists. split; [by apply (short_circuit_run bucket key rest _ bytes row)|].
  split; [reflexivity|]. repeat constructor.
Qed.

(** X10.  After the processor has processed a file, a search on the
    committed contents finds under that file name only chunks of the new
    version, each with its position as chunk index; and when [top_k] is at
    least the number of stored rows, it finds every chunk of the file. *)
Theorem ingested_chunks_are_what_is_found (w' : world) event record rest d resp s'
    q k hits s'' :
  Records event = record :: rest ->
  Processor.ingest w event d = (Ok resp, s') ->
  resp <> Processor.already_processed ->
  Query.similarity_search w' q (JInt k) (init_state (committed s')) = (Ok hits, s'') ->
  exists chunks,
    resp = Processor.processed (object_key record) chunks /\
    (forall h, In h hits -> Query.hit_filename h = object_key record ->
       exists i : nat,
         chunks !! i = Some (Query.hit_chunk_text h) /\
         Query.hit_chunk_index h = Z.of_nat i) /\
    (Z.of_nat (length (embeddings (committed s'))) <= k ->
     forall (i : nat) chunk, chunks !! i = Some chunk ->
       exists h, In h hits /\ Query.hit_filename h = object_key record /\
                 Query.hit_chunk_index h = Z.of_nat i /\
                 Query.hit_chunk_text h = chunk).
Proof.
  intros Hrec H Hresp Hsearch.
  destruct (ingest_returns w _ _ _ _ _ _ Hrec H) as (file_bytes & _ & Hcases).
  destruct Hcases as [(-> & _) | (_ & Hnew)]; [congruence|].
  destruct Hnew as (fo & text & chunks & new & now & _ & _ & _ & -> & Hnt & Hni & Hall
                    & _ & Hdb & _).
  exists chunks. split; [reflexivity|].
  apply similarity_search_ok in Hsearch. simpl in Hsearch.
  destruct (Z.ltb_spec k 0) as [Hneg|Hk];
    [rewrite nearest_negative in Hsearch by assumption; discriminate|].
  rewrite nearest_int in Hsearch by assumption. injection Hsearch as <-.
  pose proof (order_by_distance_perm w' q (embeddings (committed s'))) as Hperm.
  assert (Hrow : forall (i : nat) row, new !! i = Some row ->
            chunks !! i = Some (col_chunk_text row) /\
            col_chunk_index row = Z.of_nat i /\ col_filename row = object_key record).
  { intros i row Hi. repeat split.
    - rewrite <- Hnt. by rewrite list_lookup_fmap, Hi.
    - assert (Hidx : map col_chunk_index new !! i = Some (col_chunk_index row))
        by (by rewrite list_lookup_fmap, Hi).
      rewrite Hni in Hidx. apply lookup_seqZ in Hidx. lia.
    - rewrite Forall_forall in Hall. apply Hall. eapply list_elem_of_lookup_2; eauto. }
  split.
  - intros h Hin Hfile. apply in_map_iff in Hin. destruct Hin as (row & <- & Hin).
    simpl in Hfile.
    assert (Hrowin : row ∈ embeddings (committed s')).
    { rewrite <- Hperm. apply list_elem_of_In in Hin.
      exact (subseteq_take _ _ _ Hin). }
    rewrite Hdb in Hrowin. simpl in Hrowin. apply elem_of_app in Hrowin.
    destruct Hrowin as [Hold|Hnewrow].
    + apply list_elem_of_filter in Hold. destruct Hold as [Hne _]. congruence.
    + apply list_elem_of_lookup in Hnewrow. destruct Hnewrow as [i Hi].
      exists i. destruct (Hrow i row Hi) as (? & ? & _). by split.
  - intros Hall_rows i chunk Hi.
    assert (Hlt : (i < length new)%nat).
    { rewrite <- (length_map col_chunk_text new), Hnt. eapply lookup_lt_Some; eauto. }
    destruct (lookup_lt_is_Some_2 new i Hlt) as [row Hrowi].
    destruct (Hrow i row Hrowi) as (Hchunk & Hidx & Hfile).
    exists (Query.select_hit w' q row). repeat split; try assumption.
    + apply in_map. rewrite firstn_all2.
      * apply list_elem_of_In. rewrite Hperm, Hdb. simpl. apply elem_of_app. right.
        eapply list_elem_of_lookup_2; eauto.
      * rewrite (Permutation_length Hperm). lia.
    + simpl. congruence.
Qed.

End Replacement.



(** An upload of [notes.txt] without text over its old version. *)
Lemma empty_document_clears_its_chunks_witness :
  chunks_of (committed (Processor.ingest blank_world (upload "notes.txt") old_version).2)
    "notes.txt" = [].
Proof.
  destruct (empty_document_clears_its_chunks blank_world (upload "notes.txt")
              (S3Record "docs" "notes.txt") [] old_version
              (Processor.processed "notes.txt" [])
              (Processor.ingest blank_world (upload "notes.txt") old_version).2)
    as (file_hash & now & _ & Hdoc & _).
  - reflexivity.
  - intros n file_obj text _ Htext. vm_compute in Htext. injection Htext as <-.
    vm_compute. reflexivity.
  - vm_compute. reflexivity.
  - discriminate.
  - unfold document in Hdoc. by injection Hdoc.
Defined.

(** [notes.txt] uploaded twice. *)
Lemma second_upload_changes_nothing_witness :
  exists s'',
    Processor.ingest demo_world (upload "notes.txt")
      (committed (Processor.ingest demo_world (upload "notes.txt") old_version).2)
    = (Ok Processor.already_processed, s'') /\
    committed s''
    = committed (Processor.ingest demo_world (upload "notes.txt") old_version).2.
Proof.
  destruct (second_upload_changes_nothing demo_world (upload "notes.txt")
              (S3Record "docs" "notes.txt") [] old_version
              [Byte.x68; Byte.x65; Byte.x6c; Byte.x6c; Byte.x6f]
              (Processor.processed "notes.txt" ["hello"])
              (Processor.ingest demo_world (upload "notes.txt") old_version).2)
    as (s'' & Hrun & Hcommitted & _).
  - reflexivity.
  - intros n. reflexivity.
  - intros n. reflexivity.
  - vm_compute. reflexivity.
  - exists s''. by split.
Defined.

(** After the upload of [notes.txt], what a search finds under that name is
    a chunk of the new version. *)
Lemma ingested_chunks_are_what_is_found_witness :
  exists chunks,
    Processor.processed "notes.txt" ["hello"] = Processor.processed "notes.txt" chunks /\
    forall h,
      In h (match (Query.similarity_search demo_world [1%Q] (JInt 5)
                     (init_state
                        (committed
                           (Processor.ingest demo_world (upload "notes.txt")
                              old_version).2))).1 with
            | Ok hits => hits
            | Raise _ => []
            end) ->
      Query.hit_filename h = "notes.txt" ->
      exists i : nat,
        chunks !! i = Some (Query.hit_chunk_text h) /\
        Query.hit_chunk_index h = Z.of_nat i.
Proof.
  destruct (ingested_chunks_are_what_is_found demo_world demo_world
              (upload "notes.txt") (S3Record "docs" "notes.txt") [] old_version
              (Processor.processed "notes.txt" ["hello"])
              (Processor.ingest demo_world (upload "notes.txt") old_version).2
              [1%Q] 5
              (match (Query.similarity_search demo_world [1%Q] (JInt 5)
                        (init_state
                           (committed
                              (Processor.ingest demo_world (upload "notes.txt")
                                 old_version).2))).1 with
               | Ok hits => hits
               | Raise _ => []
               end)
              (Query.similarity_search demo_world [1%Q] (JInt 5)
                 (init_state
                    (committed
                       (Processor.ingest demo_world (upload "notes.txt")
                          old_version).2))).2)
    as (chunks & Hresp & Hfound & _).
  - reflexivity.
  - vm_compute. reflexivity.
  - discriminate.
  - vm_compute. reflexivity.
  - exists chunks. split; [exact Hresp|exact Hfound].
Defined.

(** ** Embeddings come before writes *)

Section Order.
Context (w : world).

Lemma quiet_calls {A} (Q : call -> bool) (m : M A) s r s' :
  quiet Q m -> m s = (r, s') ->
  exists t, calls s' = calls s ++ t /\ Forall (fun c => Q c = true) t.
Proof.
  intros Hm H. destruct (Hm _ _ _ H) as (_ & t & Ht & Hall).
  exists (map fst t). split.
  - unfold calls. by rewrite Ht, map_app.
  - apply Forall_map. eapply Forall_impl; [exact Hall|]. by intros cd [? _].
Qed.

Lemma embeds_nothing_bind {A B} (m : M A) (k : A -> M B) :
  quiet (fun c => negb (is_embed c)) m -> (forall a, embeds_nothing (k a)) ->
  embeds_nothing (bind m k).
Proof.
  intros Hm Hk s r s' H. unfold bind in H.
  destruct (m s) as [[a|e] s1] eqn:E;
    destruct (quiet_calls _ _ _ _ _ Hm E) as (t & Ht & Hall);
    assert (Hall' : Forall (fun c => is_embed c = false) t)
      by (eapply Forall_impl; [exact Hall|]; intros c Hc; by apply negb_true_iff).
  - destruct (Hk a _ _ _ H) as (t' & Ht' & Ht'all).
    exists (t ++ t'). split; [by rewrite Ht', Ht, app_assoc|].
    apply Forall_app. by split.
  - injection H as <- <-. by exists t.
Qed.

Lemma embeds_before_writing_bind {A B} (m : M A) (k : A -> M B) :
  quiet (fun c => negb (is_write c)) m -> (forall a, embeds_before_writing (k a)) ->
  embeds_before_writing (bind m k).
Proof.
  intros Hm Hk s r s' H. unfold bind in H.
  destruct (m s) as [[a|e] s1] eqn:E;
    destruct (quiet_calls _ _ _ _ _ Hm E) as (t & Ht & Hall);
    assert (Hall' : Forall (fun c => is_write c = false) t)
      by (eapply Forall_impl; [exact Hall|]; intros c Hc; by apply negb_true_iff).
  - destruct (Hk a _ _ _ H) as (t1 & t2 & Ht' & H1 & H2).
    exists (t ++ t1), t2. split; [by rewrite Ht', Ht, !app_assoc|].
    split; [|assumption]. apply Forall_app. by split.
  - injection H as <- <-. exists t, []. rewrite app_nil_r. by repeat split.
Qed.

Lemma embeds_before_writing_rear {A} (m : M A) :
  embeds_nothing m -> embeds_before_writing m.
Proof.
  intros Hm s r s' H. destruct (Hm _ _ _ H) as (t & Ht & Hall).
  exists [], t. by repeat split.
Qed.

Lemma commit_and_close_embeds_nothing (resp : response) :
  embeds_nothing (db_commit w ;;; cursor_close ;;; conn_close ;;; ret resp).
Proof.
  intros s r s' H. unfold bind at 1 in H. unfold db_commit in H.
  destruct (session s) as [d|].
  - destruct (pg_fault w (tick s)).
    + injection H as <- <-. exists [DbCommit]. rewrite calls_record_call.
      split; [reflexivity|]. by repeat constructor.
    + injection H as <- <-. exists [DbCommit; DbCursorClose; DbClose]. split.
      * unfold calls. simpl. rewrite !map_app. simpl. by rewrite <- !app_assoc.
      * by repeat constructor.
  - injection H as <- <-. exists []. by rewrite app_nil_r.
Qed.

Lemma last_app_nonempty {A} (l1 l2 : list A) (x : A) :
  l2 <> [] -> List.last (l1 ++ l2) x = List.last l2 x.
Proof.
  intros Hne. induction l1 as [|a l1 IH]; [reflexivity|].
  simpl. rewrite IH. destruct (l1 ++ l2) eqn:E; [|reflexivity].
  by destruct l1, l2.
Qed.

Lemma last_In {A} (l : list A) (x : A) : l <> [] -> In (List.last l x) l.
Proof.
  induction l as [|a l IH]; [congruence|]. intros _.
  destruct l as [|b l]; [by left|]. right. by apply IH.
Qed.

(** X11.  In every invocation of the processor, successful or not, the
    calls split into a first part without any write to the store and a second
    part without any embedding call; so a run whose last call is an embedding
    call (an embedding that failed) has sent no write at all. *)
Theorem no_write_before_the_last_embedding event d r s' :
  Processor.ingest w event d = (r, s') ->
  exists before after,
    calls s' = before ++ after /\
    Forall (fun c => is_write c = false) before /\
    Forall (fun c => is_embed c = false) after /\
    (forall c, List.last (calls s') DbClose = c -> is_embed c = true ->
       Forall (fun c' => is_write c' = false) (calls s')).
Proof.
  intros H.
  assert (Hm : embeds_before_writing (Processor.lambda_handler w event)).
  { unfold Processor.lambda_handler.
    apply embeds_before_writing_bind; [apply quiet_lift|]. intros record.
    apply embeds_before_writing_bind; [by apply quiet_s3_get_object|]. intros _.
    apply embeds_before_writing_bind; [by apply quiet_s3_get_object|]. intros file_bytes.
    apply embeds_before_writing_bind; [by apply quiet_get_db_connection|]. intros _.
    apply embeds_before_writing_bind; [by apply quiet_select_file_hash|]. intros result.
    destruct (match result with Some stored => _ | None => false end).
    - apply embeds_before_writing_bind; [by apply quiet_cursor_close|]. intros _.
      apply embeds_before_writing_bind; [by apply quiet_conn_close|]. intros _.
      apply embeds_before_writing_rear. intros s0 r0 s0' [= <- <-].
      exists []. by rewrite app_nil_r.
    - apply embeds_before_writing_bind; [by apply quiet_s3_get_object|]. intros file_obj.
      apply embeds_before_writing_bind; [by apply quiet_extract_text_call|]. intros text.
      apply embeds_before_writing_bind; [apply quiet_lift|]. intros chunks.
      apply embeds_before_writing_bind; [by apply quiet_embed_chunks|].
      intros embeddings_data. apply embeds_before_writing_rear.
      apply embeds_nothing_bind; [by apply quiet_db_statement|]. intros _.
      apply embeds_nothing_bind; [by apply quiet_insert_pages|]. intros _.
      apply embeds_nothing_bind; [by apply quiet_upsert_processed_file|]. intros _.
      apply commit_and_close_embeds_nothing. }
  destruct (Hm _ _ _ H) as (t1 & t2 & Ht & H1 & H2). simpl in Ht.
  exists t1, t2. split; [exact Ht|]. split; [exact H1|]. split; [exact H2|].
  intros c Hlast Hembed. rewrite Ht.
  destruct (decide (t2 = [])) as [->|Hne]; [by rewrite app_nil_r|].
  exfalso. rewrite Ht, last_app_nonempty in Hlast by assumption.
  assert (Hin : In c t2) by (rewrite <- Hlast; by apply last_In).
  rewrite Forall_forall in H2. apply list_elem_of_In in Hin.
  rewrite (H2 _ Hin) in Hembed. discriminate.
Qed.

End Order.


(** An embedding model that is not available: the run stops at the first
    embedding call, without any write. *)
Lemma no_write_before_the_last_embedding_witness :
  Forall (fun c => is_write c = false)
    (calls (Processor.ingest without_embeddings (upload "notes.txt") old_version).2).
Proof.
  destruct (no_write_before_the_last_embedding without_embeddings (upload "notes.txt")
              old_version
              (Processor.ingest without_embeddings (upload "notes.txt") old_version).1
              (Processor.ingest without_embeddings (upload "notes.txt") old_version).2)
    as (before & after & _ & _ & _ & Hlast).
  - vm_compute. reflexivity.
  - apply (Hlast (Embed (JStr "hello"))); vm_compute; reflexivity.
Defined.

(** ** The prompt *)

Lemma prefix_app (sub rest : string) : String.prefix sub (sub +:+ rest) = true.
Proof.
  induction sub as [|c sub IH]; [by destruct rest|].
  rewrite str_app_cons. simpl. by destruct (Ascii.ascii_dec c c).
Qed.

Lemma contains_prefix (sub text : string) :
  String.prefix sub text = true -> contains sub text = true.
Proof.
  intros H. destruct text as [|c text].
  - by destruct sub.
  - cbn [contains]. by rewrite H.
Qed.

Lemma contains_here (sub rest : string) : contains sub (sub +:+ rest) = true.
Proof. apply contains_prefix, prefix_app. Qed.

Lemma contains_later (sub before text : string) :
  contains sub text = true -> contains sub (before +:+ text) = true.
Proof.
  intros H. induction before as [|c before IH]; [exact H|].
  rewrite str_app_cons. cbn [contains]. rewrite IH.
  by destruct (String.prefix sub (String c (before +:+ text))).
Qed.

Lemma contains_earlier (sub text after : string) :
  contains sub text = true -> contains sub (text +:+ after) = true.
Proof.
  induction text as [|c text IH]; intros H.
  - simpl in H. destruct sub; [|discriminate]. by destruct after.
  - cbn [contains] in H. rewrite str_app_cons.
    destruct (String.prefix sub (String c text)) eqn:Hp.
    + destruct (prefix_split _ _ Hp) as [t Ht]. rewrite <- str_app_cons, Ht.
      rewrite str_app_assoc. apply contains_here.
    + cbn [contains]. rewrite (IH H).
      by destruct (String.prefix sub (String c (text +:+ after))).
Qed.

Lemma contains_joined (sep entry : string) (entries : list string) :
  In entry entries -> contains entry (join sep entries) = true.
Proof.
  induction entries as [|e entries IH]; [intros []|].
  intros [->|Hin].
  - destruct entries as [|e' entries]; [simpl|].
    + rewrite <- (str_app_nil_r entry) at 2. apply contains_here.
    + change (join sep (entry :: e' :: entries))
        with (entry +:+ sep +:+ join sep (e' :: entries)).
      apply contains_here.
  - destruct entries as [|e' entries]; [destruct Hin|].
    change (join sep (e :: e' :: entries)) with (e +:+ sep +:+ join sep (e' :: entries)).
    do 2 apply contains_later. by apply IH.
Qed.

Section Prompt.
Context (w : world).

(** X12.  The prompt of [query_claude] contains, for every retrieved chunk,
    the chunk's text under a label with its file name and chunk index, and it
    contains the question after [Pregunta: ]. *)
Theorem prompt_shows_every_retrieved_chunk question context_chunks chunk :
  In chunk context_chunks ->
  contains
    ("[Documento: " +:+ Query.hit_filename chunk +:+ ", Fragmento "
       +:+ Query.str_of_Z (Query.hit_chunk_index chunk) +:+ "]" +:+ nl
       +:+ Query.hit_chunk_text chunk)
    (Query.build_prompt w question context_chunks) = true /\
  contains ("Pregunta: " +:+ Query.format_value w question)
    (Query.build_prompt w question context_chunks) = true.
Proof.
  intros Hin. unfold Query.build_prompt. cbv zeta. split.
  - do 9 apply contains_later. apply contains_earlier.
    apply contains_joined. change (In (Query.context_entry chunk)
                                     (map Query.context_entry context_chunks)).
    by apply in_map.
  - do 12 apply contains_later. rewrite <- str_app_assoc. apply contains_here.
Qed.

End Prompt.

(** ** Request bodies that are not dictionaries *)

Section Bodies.
Context (w : world).


End Bodies.


(** The prompt for two chunks shows the second one. *)
Lemma prompt_shows_every_retrieved_chunk_witness :
  contains
    ("[Documento: doc1, Fragmento 1]" +:+ nl +:+ "Lyon is a city in France.")
    (Query.build_prompt demo_world (JStr "what?")
       [Query.Hit "Paris is the capital of France." "doc1" 0 1%Q;
        Query.Hit "Lyon is a city in France." "doc1" 1 0%Q]) = true.
Proof.
  destruct (prompt_shows_every_retrieved_chunk demo_world (JStr "what?")
              [Query.Hit "Paris is the capital of France." "doc1" 0 1%Q;
               Query.Hit "Lyon is a city in France." "doc1" 1 0%Q]
              (Query.Hit "Lyon is a city in France." "doc1" 1 0%Q)) as [Hentry _].
  - right. left. reflexivity.
  - exact Hentry.
Defined.


(** ** The connection of a failed invocation *)

Section Leak.
Context (w : world).

Lemma closes_only_on_return_bind {A B} (m : M A) (k : A -> M B) :
  quiet (fun c => negb (is_close c)) m -> (forall a, closes_only_on_return (k a)) ->
  closes_only_on_return (bind m k).
Proof.
  intros Hm Hk s r s' H. unfold bind in H.
  destruct (m s) as [[a|e] s1] eqn:E;
    destruct (quiet_calls _ _ _ _ _ Hm E) as (t & Ht & Hall);
    assert (Hall' : Forall (fun c => is_close c = false) t)
      by (eapply Forall_impl; [exact Hall|]; intros c Hc; by apply negb_true_iff).
  - destruct (Hk a _ _ _ H) as (t' & Ht' & Hcases).
    exists (t ++ t'). split; [by rewrite Ht', Ht, app_assoc|].
    destruct Hcases as [Hok|Hnone]; [by left|]. right. apply Forall_app. by split.
  - injection H as <- <-. exists t. split; [exact Ht|]. by right.
Qed.

Lemma closes_only_on_return_close (resp : response) :
  closes_only_on_return (cursor_close ;;; conn_close ;;; ret resp).
Proof.
  intros s r s' [= <- <-]. exists [DbCursorClose; DbClose]. split.
  - unfold calls. simpl. rewrite !map_app. simpl. by rewrite <- !app_assoc.
  - left. eauto.
Qed.

Lemma closes_only_on_return_commit (resp : response) :
  closes_only_on_return (db_commit w ;;; cursor_close ;;; conn_close ;;; ret resp).
Proof.
  intros s r s' H. unfold bind at 1 in H. unfold db_commit in H.
  destruct (session s) as [d|].
  - destruct (pg_fault w (tick s)).
    + injection H as <- <-. exists [DbCommit]. rewrite calls_record_call.
      split; [reflexivity|]. right. by repeat constructor.
    + injection H as <- <-. exists [DbCommit; DbCursorClose; DbClose]. split.
      * unfold calls. simpl. rewrite !map_app. simpl. by rewrite <- !app_assoc.
      * left. eauto.
  - injection H as <- <-. exists []. rewrite app_nil_r. split; [reflexivity|].
    right. constructor.
Qed.

(** X14.  An invocation of the processor that raises has closed neither its
    cursor nor its connection: the closes are reached only on the two paths
    that return. *)
Theorem failed_ingestion_never_closes event d e s' :
  Processor.ingest w event d = (Raise e, s') ->
  Forall (fun c => is_close c = false) (calls s').
Proof.
  intros H.
  assert (Hm : closes_only_on_return (Processor.lambda_handler w event)).
  { unfold Processor.lambda_handler.
    apply closes_only_on_return_bind; [apply quiet_lift|]. intros record.
    apply closes_only_on_return_bind; [by apply quiet_s3_get_object|]. intros _.
    apply closes_only_on_return_bind; [by apply quiet_s3_get_object|]. intros file_bytes.
    apply closes_only_on_return_bind; [by apply quiet_get_db_connection|]. intros _.
    apply closes_only_on_return_bind; [by apply quiet_select_file_hash|]. intros result.
    destruct (match result with Some stored => _ | None => false end).
    - apply closes_only_on_return_close.
    - apply closes_only_on_return_bind; [by apply quiet_s3_get_object|]. intros file_obj.
      apply closes_only_on_return_bind; [by apply quiet_extract_text_call|]. intros text.
      apply closes_only_on_return_bind; [apply quiet_lift|]. intros chunks.
      apply closes_only_on_return_bind; [by apply quiet_embed_chunks|].
      intros embeddings_data.
      apply closes_only_on_return_bind; [by apply quiet_db_statement|]. intros _.
      apply closes_only_on_return_bind; [by apply quiet_insert_pages|]. intros _.
      apply closes_only_on_return_bind; [by apply quiet_upsert_processed_file|].
      intros _. apply closes_only_on_return_commit. }
  destruct (Hm _ _ _ H) as (t & Ht & [[a Ha]|Hnone]); [discriminate|].
  simpl in Ht. by rewrite Ht.
Qed.

End Leak.


(** A database failure at the insert: nothing is closed. *)
Lemma failed_ingestion_never_closes_witness :
  Forall (fun c => is_close c = false)
    (calls (Processor.ingest (failing_at 8) (upload "notes.txt") old_version).2).
Proof.
  apply (failed_ingestion_never_closes (failing_at 8) (upload "notes.txt") old_version
           (Exn CollaboratorError "server closed the connection")).
  vm_compute. reflexivity.
Defined.
